(** * SalesEnablementAssistant: ingestion and retrieval pipeline

    A shallow embedding of [backend/ingest_docs.py], [backend/vector_db.py]
    and [backend/rag_pipeline.py], with the properties of the design
    document stated and settled against it.

    Python [str] values are sequences of Unicode code points and are
    embedded as [list N]; Python [int] as [Z].  External collaborators (file
    system, HTML parser, embedding and chat services, the vector store) are
    an explicit environment of oracles; calls to the services are logged in
    a trace so that "is never called" is a statement about that trace.
    Console output ([print]) is not part of the model. *)

From Stdlib Require Import ZArith NArith List String Ascii Lia DecimalString.
From Stdlib Require Import Sorting.Sorted Sorting.Permutation.
From stdpp Require Import gmap list.

Set Warnings "-register-all".

Local Open Scope N_scope.

(** ** Python strings and exceptions *)

Module PyStr.

Abbreviation str := (list N).

(** ASCII literal to code points. *)
Definition u (s : string) : str :=
  List.map N_of_ascii (list_ascii_of_string s).

Definition nl : N := 10.
Definition dquote : N := 34.
Definition slash : N := 47.

(** [str.isspace] on one code point: the Unicode white-space set used by
    [str.split()] and [str.strip()]. *)
Definition isspace (c : N) : bool :=
  ((9 <=? c) && (c <=? 13)) || ((28 <=? c) && (c <=? 32))
  || (c =? 133) || (c =? 160) || (c =? 5760)
  || ((8192 <=? c) && (c <=? 8202))
  || (c =? 8232) || (c =? 8233) || (c =? 8239) || (c =? 8287)
  || (c =? 12288).

(** Truthiness of a string or list: non-empty. *)
Definition truthy {A} (l : list A) : bool :=
  match l with [] => false | _ => true end.

(** [s.split(sep)] for a one-character separator: never empty. *)
Fixpoint split_on (sep : N) (s : str) : list str :=
  match s with
  | [] => [[]]
  | c :: s' =>
      if c =? sep then [] :: split_on sep s'
      else match split_on sep s' with
           | p :: ps => (c :: p) :: ps
           | [] => [[c]]
           end
  end.

(** [s.split()]: maximal runs of non-white-space, [cur] being the run
    under construction. *)
Fixpoint split_ws_from (cur : str) (s : str) : list str :=
  match s with
  | [] => if truthy cur then [cur] else []
  | c :: s' =>
      if isspace c
      then (if truthy cur then cur :: split_ws_from [] s'
            else split_ws_from [] s')
      else split_ws_from (cur ++ [c]) s'
  end.

Definition split_ws (s : str) : list str := split_ws_from [] s.

Fixpoint lstrip (s : str) : str :=
  match s with
  | c :: s' => if isspace c then lstrip s' else s
  | [] => []
  end.

Definition rstrip (s : str) : str := rev (lstrip (rev s)).

(** [s.strip()]. *)
Definition strip (s : str) : str := rstrip (lstrip s).

(** Some character of [s] is not white space. *)
Definition has_word (s : str) : bool :=
  existsb (fun c => negb (isspace c)) s.

(** [len(s.split())] as a Python integer. *)
Definition word_count (s : str) : Z := Z.of_nat (length (split_ws s)).

(** [sep.join(parts)]. *)
Fixpoint join (sep : str) (parts : list str) : str :=
  match parts with
  | [] => []
  | p :: ps => match ps with [] => p | _ => p ++ sep ++ join sep ps end
  end.

(** [s.lower()], on the ASCII letters; the suffix test of the loader only
    observes ['.'], ['h'], ['t'], ['m'], ['l'], which no other code point
    lowers to. *)
Definition lower_char (c : N) : N :=
  if (65 <=? c) && (c <=? 90) then c + 32 else c.
Definition lower (s : str) : str := List.map lower_char s.

Definition endswith (s suffix : str) : bool :=
  (length suffix <=? length s)%nat
  && bool_decide (drop (length s - length suffix)%nat s = suffix).

(** [str(n)] for a non-negative integer. *)
Definition str_of_nat (n : nat) : str :=
  u (NilZero.string_of_uint (Nat.to_uint n)).

(** [a <= b] on strings: lexicographic on code points. *)
Fixpoint str_leb (a b : str) : bool :=
  match a, b with
  | [], _ => true
  | _ :: _, [] => false
  | x :: a', y :: b' =>
      if x <? y then true else if y <? x then false else str_leb a' b'
  end.

Definition str_le (a b : str) : Prop := str_leb a b = true.

Fixpoint insert_sorted (x : str) (l : list str) : list str :=
  match l with
  | [] => [x]
  | y :: l' => if str_leb x y then x :: l else y :: insert_sorted x l'
  end.

(** [sorted(l)] on a list of strings. *)
Definition sorted (l : list str) : list str := foldr insert_sorted [] l.

(** [p[p.rfind('/') + 1:]] when [p] contains a slash. *)
Fixpoint after_last_slash (p : str) : option str :=
  match p with
  | [] => None
  | c :: p' =>
      match after_last_slash p' with
      | Some t => Some t
      | None => if c =? slash then Some p' else None
      end
  end.

(** [os.path.basename] (posixpath). *)
Definition basename (p : str) : str := default p (after_last_slash p).

(** [os.path.join(a, b)] (posixpath, two components). *)
Definition path_join (a b : str) : str :=
  match b with
  | c :: _ =>
      if c =? slash then b
      else if negb (truthy a) || endswith a [slash] then a ++ b
      else a ++ [slash] ++ b
  | [] => if negb (truthy a) || endswith a [slash] then a else a ++ [slash]
  end.

(** Python exceptions that are instances of [Exception], with [str(e)]. *)
Inductive exn_class : Type :=
| ValueError | AttributeError | IndexError | OSError | OtherError.

Record exn : Type := Exn { exn_cls : exn_class; exn_str : str }.

Inductive result (A : Type) : Type :=
| Ok (a : A)
| Raise (e : exn).
Arguments Ok {A} a.
Arguments Raise {A} e.

End PyStr.
Import PyStr.

(** ** config/settings.py *)

Module settings.

Definition COLLECTION_NAME : str := u "local_docs".
Definition CHUNK_SIZE_TOKENS : Z := 400.
Definition EMBEDDING_MODEL : str := u "nomic-embed-text".
Definition LLM_MODEL : str := u "gemma:2b".

(** [RAG_PROMPT_TEMPLATE], cut at its two substitution points. *)
Definition template_head : str :=
  join [nl]
    [ [];
      u "**ROLE:** You are an AI assistant for a salesperson who is on a live call with a customer.";
      u "Your goal is to generate a concise, clean, plain-text response that the salesperson can read word-for-word to the customer.";
      [];
      u "**CRITICAL INSTRUCTIONS:**";
      u "1.  **Base Your Answer on the Context:** Your entire answer MUST be derived exclusively from the [DOCUMENTATION CONTEXT] provided. Do not use any outside knowledge.";
      u "2.  **No Formatting:** DO NOT use Markdown, HTML, bullet points, or any other special formatting. The output must be a single block of plain text.";
      u "3.  **Stay in Character:** Do not break character. Do not explain your reasoning, mention the context, or refer to yourself as an AI.";
      u "4.  **Be Direct and Professional:** Phrase the response as if you are the salesperson speaking directly to the customer.";
      u "5.  **Handle Missing Information:** If the answer is not in the provided context, your entire response must be ONLY this exact phrase: "
        ++ [dquote]
        ++ u "I'll need to follow up with you on that specific question."
        ++ [dquote];
      [];
      u "---";
      u "[DOCUMENTATION CONTEXT]";
      [] ].

Definition template_middle : str :=
  join [nl] [ []; u "---"; u "[CUSTOMER'S QUESTION]"; [] ].

Definition template_tail : str :=
  join [nl]
    [ []; u "---"; u "[YOUR RESPONSE (TO BE READ BY SALESPERSON)]"; [] ].

(** [RAG_PROMPT_TEMPLATE.format(context=.., query=..)]. *)
Definition format_prompt (context query : str) : str :=
  template_head ++ context ++ template_middle ++ query ++ template_tail.

End settings.

(** ** The chunker ([chunk_text], ingest_docs.py) *)

Module Chunker.

(** One iteration of [for para in paragraphs], on the pair
    [(chunks, current_chunk)]. *)
Definition chunk_step (max_tokens : Z) (st : list str * str) (para : str)
  : list str * str :=
  let '(chunks, current_chunk) := st in
  if (word_count current_chunk + word_count para <? max_tokens)%Z
  then (chunks, current_chunk ++ para ++ [nl])
  else (chunks ++ [strip current_chunk], para ++ [nl]).

Definition chunk_text (text : str) (max_tokens : Z) : list str :=
  let paragraphs := split_on nl text in
  let '(chunks, current_chunk) :=
    fold_left (chunk_step max_tokens) paragraphs ([], []) in
  if truthy (strip current_chunk)
  then chunks ++ [strip current_chunk]
  else chunks.

(** *** Which paragraphs a chunk is made of

    The same loop, carrying the list of paragraphs accumulated in the
    buffer instead of their concatenation. [buffer_of] gives back the
    buffer, [render] the emitted chunk. *)

Definition buffer_of (group : list str) : str :=
  concat (List.map (fun para => para ++ [nl]) group).

Definition render (group : list str) : str := strip (buffer_of group).

Definition group_step (max_tokens : Z) (st : list (list str) * list str)
  (para : str) : list (list str) * list str :=
  let '(groups, current) := st in
  if (word_count (buffer_of current) + word_count para <? max_tokens)%Z
  then (groups, current ++ [para])
  else (groups ++ [current], [para]).

Definition chunk_groups (text : str) (max_tokens : Z) : list (list str) :=
  let '(groups, current) :=
    fold_left (group_step max_tokens) (split_on nl text) ([], []) in
  if truthy (render current) then groups ++ [current] else groups.

(** What the loop maintains about a buffer: it is empty, or one paragraph,
    or strictly below the bound. *)
Definition buffer_inv (mt : Z) (group : list str) : Prop :=
  group = [] \/ (exists para, group = [para])
  \/ (word_count (buffer_of group) < mt)%Z.

(** The bound on an emitted chunk: within [max_tokens], or one paragraph
    that exceeds it by itself. *)
Definition chunk_bound_ok (max_tokens : Z) (group : list str) : Prop :=
  (word_count (render group) <= max_tokens)%Z
  \/ exists para, group = [para] /\ (max_tokens < word_count para)%Z.

(** A paragraph with no token. *)
Definition blank (para : str) : bool := negb (truthy (split_ws para)).

End Chunker.
Import Chunker.

(** ** Parsed HTML ([bs4]) and [clean_html] *)

Module Html.

(** The subclasses of [NavigableString] a parser gives to a string that
    is not ordinary text: a CDATA section, a comment, the doctype, a
    declaration, a processing instruction, or the class the tree builder
    keeps for the strings of some containers ([Script], [Stylesheet],
    [TemplateString], the ruby strings). *)
Inductive string_class : Type :=
| CData | Comment | Doctype | Declaration | ProcessingInstruction
| ContainerString.

(** The parse tree: strings whose class is [NavigableString] itself,
    tags with their contents, and strings of a subclass. *)
Inductive node : Type :=
| NavigableString (s : str)
| Tag (name : str) (contents : list node)
| OtherString (cls : string_class) (s : str).

(** [type(string) in (NavigableString, CData)]: the strings that
    [get_text] counts as text. *)
Definition interesting_string (cls : string_class) : bool :=
  match cls with
  | CData => true
  | _ => false
  end.

Definition is_script_or_style (name : str) : bool :=
  bool_decide (name = u "script") || bool_decide (name = u "style").

(** [for t in soup(["script", "style"]): t.decompose()]. *)
Fixpoint decompose_scripts (n : node) : list node :=
  match n with
  | NavigableString _ => [n]
  | Tag name contents =>
      if is_script_or_style name then []
      else [Tag name (flat_map decompose_scripts contents)]
  | OtherString _ _ => [n]
  end.

(** [tag.find(name)] including [tag] itself: first match in document
    order. *)
Fixpoint find_tag (name : str) (n : node) : option node :=
  match n with
  | NavigableString _ => None
  | Tag nm contents =>
      if bool_decide (nm = name) then Some n
      else (fix first (l : list node) : option node :=
              match l with
              | [] => None
              | c :: l' =>
                  match find_tag name c with
                  | Some t => Some t
                  | None => first l'
                  end
              end) contents
  | OtherString _ _ => None
  end.

(** [soup.title]. *)
Fixpoint soup_title (soup : list node) : option node :=
  match soup with
  | [] => None
  | n :: soup' =>
      match find_tag (u "title") n with
      | Some t => Some t
      | None => soup_title soup'
      end
  end.

(** [tag.string]: the single string, of any class, below a chain of only
    children, else [None]. *)
Fixpoint node_string (n : node) : option str :=
  match n with
  | NavigableString s => Some s
  | Tag _ contents =>
      match contents with
      | [c] => node_string c
      | _ => None
      end
  | OtherString _ s => Some s
  end.

(** [tag._all_strings()] with the default types: the descendant strings
    whose class is [NavigableString] or [CData], in document order. *)
Fixpoint all_strings (n : node) : list str :=
  match n with
  | NavigableString s => [s]
  | Tag _ contents => flat_map all_strings contents
  | OtherString cls s => if interesting_string cls then [s] else []
  end.

(** [soup.get_text(separator="\n", strip=True)]. *)
Definition get_text (soup : list node) : str :=
  join [nl]
    (List.filter truthy (List.map strip (flat_map all_strings soup))).

Definition none_has_no_strip : exn :=
  Exn AttributeError (u "'NoneType' object has no attribute 'strip'").

(** [clean_html] after [BeautifulSoup(html_content, "html.parser")]. *)
Definition clean_soup (parsed : list node) : result (str * str) :=
  let soup := flat_map decompose_scripts parsed in
  match
    match soup_title soup with
    | Some title_tag =>
        match node_string title_tag with
        | Some s => Ok (strip s)
        | None => Raise none_has_no_strip
        end
    | None => Ok (u "Untitled Document")
    end
  with
  | Ok title => Ok (title, get_text soup)
  | Raise e => Raise e
  end.

Definition clean_html (html_parser : str -> list node) (html_content : str)
  : result (str * str) :=
  clean_soup (html_parser html_content).

End Html.
Import Html.

(** ** The environment: services, store and effects *)

Module Effects.

(** Calls to the external services, in the order they are made. *)
Inductive event : Type :=
| EvEmbeddings (model prompt : str)
| EvChat (model prompt : str)
| EvPersistentClient
| EvGetCollection (name : str)
| EvGetOrCreateCollection (name : str)
| EvCreateCollection (name : str)
| EvDeleteCollection (name : str)
| EvQuery (name : str) (n_results : nat)
| EvCount (name : str)
| EvAdd (name : str) (documents : list str).

Definition is_embeddings (ev : event) : bool :=
  match ev with EvEmbeddings _ _ => true | _ => false end.
Definition is_chat (ev : event) : bool :=
  match ev with EvChat _ _ => true | _ => false end.
Definition is_add (ev : event) : bool :=
  match ev with EvAdd _ _ => true | _ => false end.

(** The calls of a trace made to the generation service, to the embedding
    service, and the index writes. *)
Definition chat_calls (tr : list event) : list event := List.filter is_chat tr.
Definition embedding_calls (tr : list event) : list event :=
  List.filter is_embeddings tr.
Definition index_writes (tr : list event) : list event := List.filter is_add tr.

Section WithServices.

(** Embedding vectors and response streams are opaque to the pipeline. *)
Context {vector stream : Type}.

(** An indexed item [(id, vector, document, metadata)]. *)
Record item : Type := Item {
  item_id : str;
  item_embedding : vector;
  item_document : str;
  item_metadata : gmap str str
}.

(** What [collection.query] returns: one inner list per query vector. *)
Record query_result : Type := QueryResult {
  ids : list (list str);
  documents : list (list str);
  metadatas : list (list (gmap str str))
}.

(** The outside world.  The two model services and the faults of the
    store may depend on the calls made so far; a fault is an exception
    raised by a store call for reasons of its own (disk, lock, version). *)
Record world : Type := World {
  os_walk : str -> list (str * list str);
  open_read : str -> result str;
  html_parser : str -> list node;
  ollama_embeddings : list event -> str -> str -> result vector;
  ollama_chat : list event -> str -> str -> result stream;
  chroma_fault : list event -> option exn;
  uuid4 : nat -> str;
  distance : vector -> vector -> Z
}.

(** The store raises nothing of its own. *)
Definition reliable (w : world) : Prop :=
  forall tr, chroma_fault w tr = None.

(** Mutable state: the call trace, the persisted collections by name, and
    how many identifiers were drawn. *)
Record state : Type := State {
  trace : list event;
  store : gmap str (list item);
  uuids_drawn : nat
}.

Definition M (A : Type) : Type := state -> state * result A.

Definition ret {A} (a : A) : M A := fun st => (st, Ok a).

Definition raise {A} (e : exn) : M A := fun st => (st, Raise e).

Definition bind {A B} (m : M A) (k : A -> M B) : M B :=
  fun st =>
    match m st with
    | (st', Ok a) => k a st'
    | (st', Raise e) => (st', Raise e)
    end.

(** [try: m except Exception as e: handler(e)]. *)
Definition try_except {A} (m : M A) (handler : exn -> M A) : M A :=
  fun st =>
    match m st with
    | (st', Ok a) => (st', Ok a)
    | (st', Raise e) => handler e st'
    end.

Definition lift {A} (r : result A) : M A := fun st => (st, r).

Definition logged (ev : event) (st : state) : state :=
  State (trace st ++ [ev]) (store st) (uuids_drawn st).

Definition log (ev : event) : M unit := fun st => (logged ev st, Ok tt).

Definition get_store : M (gmap str (list item)) :=
  fun st => (st, Ok (store st)).

Definition put_store (s : gmap str (list item)) : M unit :=
  fun st => (State (trace st) s (uuids_drawn st), Ok tt).

End WithServices.

Arguments item : clear implicits.
Arguments query_result : clear implicits.
Arguments world : clear implicits.
Arguments state : clear implicits.
Arguments M : clear implicits.

End Effects.
Import Effects.

Notation "'let*' x ':=' m 'in' k" := (bind m (fun x => k))
  (at level 10, x pattern, m at level 100, k at level 200).
Notation "m ';;' k" := (bind m (fun _ => k))
  (at level 100, k at level 200, right associativity).

(** ** The vector store ([chromadb]) and the model services ([ollama])

    The store follows what the sources rely on: [get_collection] raises
    [ValueError] for a missing collection, [query] ranks the items of the
    collection by distance to the query vector and returns the nearest
    [n_results], and any call may fail with an exception of the store's
    own. *)

Module Services.

Section WithWorld.

Context {vector stream : Type} (w : world vector stream).

Local Abbreviation M := (Effects.M vector).
Local Abbreviation item := (Effects.item vector).

(** A store call: logged, then subject to a fault, then [body]. *)
Definition chroma_call {A} (ev : event) (body : M A) : M A :=
  log ev ;;
  fun st =>
    match chroma_fault w (trace st) with
    | Some e => (st, Raise e)
    | None => body st
    end.

Definition no_such_collection (name : str) : exn :=
  Exn ValueError (u "Collection " ++ name ++ u " does not exist.").

Definition collection_exists (name : str) : exn :=
  Exn ValueError (u "Collection " ++ name ++ u " already exists").

Definition PersistentClient : M unit := chroma_call EvPersistentClient (ret tt).

(** Collections are handled by name. *)
Definition get_collection (name : str) : M str :=
  chroma_call (EvGetCollection name)
    (let* s := get_store in
     match s !! name with
     | Some _ => ret name
     | None => raise (no_such_collection name)
     end).

Definition get_or_create_collection (name : str) : M str :=
  chroma_call (EvGetOrCreateCollection name)
    (let* s := get_store in
     match s !! name with
     | Some _ => ret name
     | None => put_store (<[name := []]> s) ;; ret name
     end).

Definition create_collection (name : str) : M str :=
  chroma_call (EvCreateCollection name)
    (let* s := get_store in
     match s !! name with
     | Some _ => raise (collection_exists name)
     | None => put_store (<[name := []]> s) ;; ret name
     end).

Definition delete_collection (name : str) : M unit :=
  chroma_call (EvDeleteCollection name)
    (let* s := get_store in
     match s !! name with
     | Some _ => put_store (delete name s)
     | None => raise (no_such_collection name)
     end).

Definition collection_count (name : str) : M nat :=
  chroma_call (EvCount name)
    (let* s := get_store in
     match s !! name with
     | Some items => ret (length items)
     | None => raise (no_such_collection name)
     end).

Definition collection_add (name : str) (new_items : list item) : M unit :=
  chroma_call (EvAdd name (List.map item_document new_items))
    (let* s := get_store in
     match s !! name with
     | Some items => put_store (<[name := items ++ new_items]> s)
     | None => raise (no_such_collection name)
     end).

(** Nearest first; ties keep insertion order. *)
Fixpoint insert_ranked (q : vector) (x : item) (l : list item) : list item :=
  match l with
  | [] => [x]
  | y :: l' =>
      if (distance w q (item_embedding x) <=? distance w q (item_embedding y))%Z
      then x :: l
      else y :: insert_ranked q x l'
  end.

Definition ranked (q : vector) (items : list item) : list item :=
  foldr (insert_ranked q) [] items.

(** [collection.query(query_embeddings=[q], n_results=k,
    include=["documents", "metadatas"])]. *)
Definition collection_query (name : str) (q : vector) (k : nat)
  : M query_result :=
  chroma_call (EvQuery name k)
    (let* s := get_store in
     match s !! name with
     | Some items =>
         let hits := take k (ranked q items) in
         ret (QueryResult [List.map item_id hits]
                          [List.map item_document hits]
                          [List.map item_metadata hits])
     | None => raise (no_such_collection name)
     end).

(** [ollama.embeddings(model=.., prompt=..)['embedding']]. *)
Definition embeddings (model prompt : str) : M vector :=
  log (EvEmbeddings model prompt) ;;
  fun st => (st, ollama_embeddings w (trace st) model prompt).

(** [ollama.chat(model=.., messages=[user prompt], stream=True)]. *)
Definition chat (model prompt : str) : M stream :=
  log (EvChat model prompt) ;;
  fun st => (st, ollama_chat w (trace st) model prompt).

(** [str(uuid4())]. *)
Definition fresh_uuid : M str :=
  fun st =>
    (State (trace st) (store st) (S (uuids_drawn st)),
     Ok (uuid4 w (uuids_drawn st))).

End WithWorld.

End Services.
Import Services.

(** ** backend/vector_db.py *)

Module vector_db.

Import settings.

Section WithWorld.

Context {vector stream : Type} (w : world vector stream).

Local Abbreviation M := (Effects.M vector).

(** A retrieved chunk: [{"document": doc, "metadata": meta}]. *)
Record retrieved : Type := Retrieved {
  document : str;
  metadata : gmap str str
}.

(** [l[0]]. *)
Definition getitem0 {A} (l : list A) : M A :=
  match l with
  | x :: _ => ret x
  | [] => raise (Exn IndexError (u "list index out of range"))
  end.

(** [zip(docs, metas)] into retrieved chunks. *)
Fixpoint zip_retrieved (docs : list str) (metas : list (gmap str str))
  : list retrieved :=
  match docs, metas with
  | doc :: docs', meta :: metas' =>
      Retrieved doc meta :: zip_retrieved docs' metas'
  | _, _ => []
  end.

(** A stored item as a retrieved chunk. *)
Definition normalize (it : Effects.item vector) : retrieved :=
  Retrieved (item_document it) (item_metadata it).

(** The [try] block of [search_vector_db]. *)
Definition search_body (query_embedding : vector) (top_k : nat)
  : M (list retrieved) :=
  PersistentClient w ;;
  let* collection := get_collection w COLLECTION_NAME in
  let* results := collection_query w collection query_embedding top_k in
  if match ids results with
     | ids0 :: _ => truthy ids0
     | [] => false
     end
  then
    let* docs := getitem0 (documents results) in
    let* metas := getitem0 (metadatas results) in
    ret (zip_retrieved docs metas)
  else ret [].

Definition search_vector_db (query_embedding : vector) (top_k : nat)
  : M (list retrieved) :=
  try_except (search_body query_embedding top_k)
    (fun e =>
       match exn_cls e with
       | ValueError => ret []
       | _ => ret []
       end).

Definition cleared_message : str :=
  [9989] ++ u " Collection '" ++ COLLECTION_NAME
  ++ u "' has been cleared successfully. It now contains 0 items.".

Definition nothing_to_clear_message : str :=
  [8505; 65039] ++ u " Collection '" ++ COLLECTION_NAME
  ++ u "' did not exist, so there was nothing to clear.".

Definition clear_error_message (e : exn) : str :=
  [10060] ++ u " An error occurred while clearing the database: "
  ++ exn_str e.

Definition clear_database_collection : M str :=
  try_except
    (PersistentClient w ;;
     try_except
       (get_collection w COLLECTION_NAME ;;
        delete_collection w COLLECTION_NAME ;;
        create_collection w COLLECTION_NAME ;;
        ret cleared_message)
       (fun e =>
          match exn_cls e with
          | ValueError => ret nothing_to_clear_message
          | _ => raise e
          end))
    (fun e => ret (clear_error_message e)).

End WithWorld.

End vector_db.
Import vector_db.

(** ** backend/rag_pipeline.py *)

Module rag_pipeline.

Import settings.

(** One iteration of [for chunk in retrieved_chunks], on
    [(source_documents, seen_paths)]. *)
Definition sources_step (acc : list str * gset str) (chunk : retrieved)
  : list str * gset str :=
  let '(source_documents, seen_paths) := acc in
  match metadata chunk !! u "source_path" with
  | Some source_path =>
      if truthy source_path && bool_decide (source_path ∉ seen_paths)
      then (source_documents ++ [basename source_path],
            seen_paths ∪ {[source_path]})
      else acc
  | None => acc
  end.

Definition source_documents (retrieved_chunks : list retrieved) : list str :=
  fst (fold_left sources_step retrieved_chunks ([], ∅)).

(** The rendered bullets, one per entry of [sorted(source_documents)]. *)
Definition source_bullets (retrieved_chunks : list retrieved) : list str :=
  List.map (fun doc => u "- " ++ doc)
    (sorted (source_documents retrieved_chunks)).

Definition sources_text (retrieved_chunks : list retrieved) : str :=
  u "### Retrieved Sources:" ++ [nl]
  ++ join [nl] (source_bullets retrieved_chunks).

(** *** The citation list as the design document words it

    Walk the results in rank order, keep the first occurrence of each
    distinct source path, take basenames, sort them. A result carries a
    source path when its metadata has a non-empty ["source_path"]. *)

Definition source_path_of (chunk : retrieved) : option str :=
  match metadata chunk !! u "source_path" with
  | Some p => if truthy p then Some p else None
  | None => None
  end.

Definition source_paths (results : list retrieved) : list str :=
  flat_map (fun chunk =>
              match source_path_of chunk with
              | Some p => [p]
              | None => []
              end) results.

Fixpoint first_occurrences (paths : list str) : list str :=
  match paths with
  | [] => []
  | p :: paths' =>
      p :: List.filter (fun q => negb (bool_decide (q = p)))
             (first_occurrences paths')
  end.

Definition citation_list (results : list retrieved) : list str :=
  sorted (List.map basename (first_occurrences (source_paths results))).

Definition error_message : str :=
  u "No relevant documents were found in the database. Please try rephrasing your question or ingesting more documents.".

Definition context_separator : str := [nl; nl] ++ u "---" ++ [nl; nl].

Section WithWorld.

Context {vector stream : Type} (w : world vector stream).

Local Abbreviation M := (Effects.M vector).

Definition get_rag_response_stream (query : str) : M (option stream * str) :=
  let* query_embedding := embeddings w EMBEDDING_MODEL query in
  let* retrieved_chunks := search_vector_db w query_embedding 5 in
  if negb (truthy retrieved_chunks) then ret (None, error_message)
  else
    let sources := sources_text retrieved_chunks in
    let context_str :=
      join context_separator (List.map document retrieved_chunks) in
    let final_prompt := format_prompt context_str query in
    let* llm_stream := chat w LLM_MODEL final_prompt in
    ret (Some llm_stream, sources).

End WithWorld.

End rag_pipeline.
Import rag_pipeline.

(** ** backend/ingest_docs.py *)

Module ingest_docs.

Import settings.

Definition is_html_name (file : str) : bool :=
  endswith (lower file) (u ".html") || endswith (lower file) (u ".htm").

Definition success_line (file : str) (n_chunks : nat) : str :=
  [10003] ++ u " " ++ file ++ u " " ++ [8212] ++ u " "
  ++ str_of_nat n_chunks ++ u " chunks indexed".

Definition failure_line (file_path : str) (e : exn) : str :=
  [10060] ++ u " Failed to process " ++ file_path ++ u ": " ++ exn_str e.

Definition chunk_metadata (title file_path : str) : gmap str str :=
  <[u "title" := title]> (<[u "source_path" := file_path]> ∅).

Section WithWorld.

Context {vector stream : Type} (w : world vector stream).

Local Abbreviation M := (Effects.M vector).
Local Abbreviation item := (Effects.item vector).

Fixpoint mapM {A B} (f : A -> M B) (l : list A) : M (list B) :=
  match l with
  | [] => ret []
  | x :: l' =>
      let* y := f x in
      let* ys := mapM f l' in
      ret (y :: ys)
  end.

Fixpoint foldM {A B} (f : B -> A -> M B) (l : list A) (b : B) : M B :=
  match l with
  | [] => ret b
  | x :: l' => let* b' := f b x in foldM f l' b'
  end.

Fixpoint make_items (ids : list str) (vectors : list vector)
  (chunks : list str) (meta : gmap str str) : list item :=
  match ids, vectors, chunks with
  | i :: ids', v :: vectors', c :: chunks' =>
      Item i v c meta :: make_items ids' vectors' chunks' meta
  | _, _, _ => []
  end.

(** The [try] block of the loop body: clean, chunk, embed, add, report.
    [None] stands for [continue] (nothing appended to the summary). *)
Definition process_html (collection file file_path html : str)
  : M (option str) :=
  let* (title, text) := lift (clean_html (html_parser w) html) in
  let chunks := chunk_text text CHUNK_SIZE_TOKENS in
  if negb (truthy chunks) then ret None
  else
    let* doc_embeddings :=
      mapM (fun chunk => embeddings w EMBEDDING_MODEL chunk) chunks in
    let* ids := mapM (fun _ => fresh_uuid w) chunks in
    collection_add w collection
      (make_items ids doc_embeddings chunks (chunk_metadata title file_path)) ;;
    ret (Some (success_line file (length chunks))).

(** The body of [for file in files]: the read is made before the [try]. *)
Definition ingest_file (collection root : str) (summary : list str)
  (file : str) : M (list str) :=
  if negb (is_html_name file) then ret summary
  else
    let file_path := path_join root file in
    let* html := lift (open_read w file_path) in
    try_except
      (let* line := process_html collection file file_path html in
       match line with
       | Some l => ret (summary ++ [l])
       | None => ret summary
       end)
      (fun e => ret (summary ++ [failure_line file_path e])).

Definition ingest_directory (folder_path : str) : M str :=
  PersistentClient w ;;
  let* collection := get_or_create_collection w COLLECTION_NAME in
  let* summary :=
    foldM (fun summary '(root, files) =>
             foldM (ingest_file collection root) files summary)
      (os_walk w folder_path) [] in
  ret (join [nl] summary).

End WithWorld.

End ingest_docs.
Import ingest_docs.

(** ** Concrete documents, services and stores *)

Module Examples.

Import settings.

(** A paragraph of 400 words. *)
Definition long_paragraph : str := concat (repeat (u "word ") 400).

Definition pricing_html : str :=
  u "<title>Pricing</title><p>Plans start at ten</p>".
Definition blank_html : str := u "<p> </p>".
Definition untitled_html : str := u "<title></title>".

(** What [html.parser] builds for the documents above. *)
Definition demo_parser (html : str) : list node :=
  if bool_decide (html = pricing_html)
  then [Tag (u "title") [NavigableString (u "Pricing")];
        Tag (u "p") [NavigableString (u "Plans start at ten")]]
  else if bool_decide (html = blank_html)
  then [Tag (u "p") [NavigableString (u " ")]]
  else if bool_decide (html = untitled_html)
  then [Tag (u "title") []]
  else [NavigableString html].

Definition permission_denied : exn :=
  Exn OSError (u "[Errno 13] Permission denied: 'docs/locked.html'").

Definition demo_open_read (path : str) : result str :=
  if bool_decide (path = u "docs/pricing.html") then Ok pricing_html
  else if bool_decide (path = u "docs/blank.html") then Ok blank_html
  else if bool_decide (path = u "docs/untitled.html") then Ok untitled_html
  else if bool_decide (path = u "docs/locked.html") then Raise permission_denied
  else Raise (Exn OSError (u "[Errno 2] No such file or directory")).

Definition demo_walk (files : list str) (folder : str)
  : list (str * list str) :=
  if bool_decide (folder = u "docs") then [(u "docs", files)] else [].

Definition ollama_down : exn :=
  Exn OtherError (u "Failed to connect to Ollama.").

Definition index_corrupt : exn :=
  Exn OtherError (u "Error executing plan: hnsw segment reader").

Definition demo_distance (a b : list Z) : Z :=
  Z.abs (hd 0%Z a - hd 0%Z b).

Definition demo_embed (prompt : str) : list Z := [Z.of_nat (length prompt)].

(** A world where everything works, on the given directory listing. *)
Definition demo_world (files : list str) : world (list Z) (list str) :=
  World (demo_walk files) demo_open_read demo_parser
    (fun _ _ prompt => Ok (demo_embed prompt))
    (fun _ _ _ => Ok [u "Plans start at ten."])
    (fun _ => None)
    (fun n => u "uuid-" ++ str_of_nat n)
    demo_distance.

(** The embedding service is unreachable. *)
Definition world_embed_down : world (list Z) (list str) :=
  World (demo_walk []) demo_open_read demo_parser
    (fun _ _ _ => Raise ollama_down)
    (fun _ _ _ => Ok [u "Plans start at ten."])
    (fun _ => None)
    (fun n => u "uuid-" ++ str_of_nat n)
    demo_distance.

(** The similarity search itself throws. *)
Definition world_query_fails : world (list Z) (list str) :=
  World (demo_walk []) demo_open_read demo_parser
    (fun _ _ prompt => Ok (demo_embed prompt))
    (fun _ _ _ => Ok [u "Plans start at ten."])
    (fun tr => match last tr with
               | Some (EvQuery _ _) => Some index_corrupt
               | _ => None
               end)
    (fun n => u "uuid-" ++ str_of_nat n)
    demo_distance.

Definition empty_state : state (list Z) := State [] ∅ 0.

Definition demo_item (id doc path : str) : item (list Z) :=
  Item id (demo_embed doc) doc (chunk_metadata (u "Pricing") path).

(** A store holding the collection with two items. *)
Definition stocked_state : state (list Z) :=
  State []
    (<[COLLECTION_NAME :=
         [demo_item (u "id-1") (u "Plans start at ten") (u "docs/pricing.html");
          demo_item (u "id-2") (u "Support is included") (u "docs/faq.html")]]>
       ∅)
    0.

(** Three ranked results from two files. *)
Definition ranked_results : list retrieved :=
  [Retrieved (u "first") (chunk_metadata (u "Doc") (u "b/doc.html"));
   Retrieved (u "second") (chunk_metadata (u "Doc") (u "a/doc.html"));
   Retrieved (u "third") (chunk_metadata (u "Doc") (u "a/doc.html"))].

End Examples.
Import Examples.

(** ** The rest of the three modules and their caller *)

(** *** Text that survives [clean_html]

    The strings of a parse tree that are ordinary text or CDATA and do not
    lie inside a [script] or [style] element, in document order. *)

Module HtmlVisible.

Fixpoint visible_strings (n : node) : list str :=
  match n with
  | NavigableString s => [s]
  | Tag name contents =>
      if is_script_or_style name then []
      else flat_map visible_strings contents
  | OtherString CData s => [s]
  | OtherString _ _ => []
  end.

(** A string with no white space at either end. *)
Definition trimmed (s : str) : Prop := strip s = s.

(** A non-empty string whose first character is not white space. *)
Definition starts_tight (s : str) : Prop :=
  exists c r, s = c :: r /\ isspace c = false.

Definition tight (s : str) : Prop := starts_tight s /\ starts_tight (rev s).

End HtmlVisible.
Import HtmlVisible.

(** *** [get_db_inspection_report] (vector_db.py)

    [os.path.exists], the store path and the faults of [collection.get]
    come with the function; the trace has no event for [collection.get]. *)

Module inspection.

Import settings.

(** [s.replace('\\n', ' ')]: the two characters backslash, n. *)
Fixpoint replace_backslash_n (s : str) : str :=
  match s with
  | [] => []
  | c :: s' =>
      match s' with
      | d :: s'' =>
          if (c =? 92) && (d =? 110) then 32 :: replace_backslash_n s''
          else c :: replace_backslash_n s'
      | [] => [c]
      end
  end.

Definition snippet_of (document : str) : str :=
  strip (replace_backslash_n (take 150 document)).

(** The four lines appended for item number [i] of the sample. *)
Definition item_lines (i : nat) (metadata : gmap str str) (document : str)
  : list str :=
  [ [nl] ++ u "Item #" ++ str_of_nat (i + 1);
    u "  Source: "
      ++ basename (default (u "N/A") (metadata !! u "source_path"));
    u "  Title: " ++ default (u "N/A") (metadata !! u "title");
    u "  Snippet: '" ++ snippet_of document ++ u "...'" ].

(** [for i, (metadata, document) in enumerate(zip(metadatas, documents))]. *)
Fixpoint sample_lines (i : nat) (metas : list (gmap str str))
  (docs : list str) : list str :=
  match metas, docs with
  | metadata :: metas', document :: docs' =>
      item_lines i metadata document ++ sample_lines (S i) metas' docs'
  | _, _ => []
  end.

Definition found_line (count : nat) : str :=
  [9989] ++ u " Found collection '" ++ COLLECTION_NAME ++ u "' with "
  ++ str_of_nat count ++ u " embedded chunks.".

Definition sample_header : str :=
  [nl] ++ u "--- Sample of Stored Chunks (up to 5) ---".

Definition no_directory_message (path : str) : str :=
  [10060] ++ u " Database directory not found at: '" ++ path ++ u "'."
  ++ [nl] ++ u "Have you ingested any documents yet?".

Definition collection_not_found_message : str :=
  [10060] ++ u " Collection '" ++ COLLECTION_NAME
  ++ u "' not found in the database. Please ingest documents first.".

Definition inspect_error_message (e : exn) : str :=
  u "An error occurred while inspecting the database: " ++ exn_str e.

(** The separator of the report: backslash, n. *)
Definition report_separator : str := [92; 110].

Section WithWorld.

Context {vector stream : Type} (w : world vector stream).
Context (os_path_exists : str -> bool) (VECTOR_DB_PATH : str).
Context (get_fault : list event -> option exn).

Local Abbreviation M := (Effects.M vector).

(** [collection.get(limit=.., include=["metadatas", "documents"])]: the
    first items of the collection. *)
Definition collection_get (name : str) (limit : nat)
  : M (list (gmap str str) * list str) :=
  fun st =>
    match get_fault (trace st) with
    | Some e => (st, Raise e)
    | None =>
        match store st !! name with
        | Some items =>
            (st, Ok (List.map item_metadata (take limit items),
                     List.map item_document (take limit items)))
        | None => (st, Raise (no_such_collection name))
        end
    end.

Definition get_db_inspection_report : M str :=
  if negb (os_path_exists VECTOR_DB_PATH)
  then ret (no_directory_message VECTOR_DB_PATH)
  else
    try_except
      (PersistentClient w ;;
       let* found :=
         try_except
           (let* collection := get_collection w COLLECTION_NAME in
            ret (Some collection))
           (fun e =>
              match exn_cls e with
              | ValueError => ret None
              | _ => raise e
              end) in
       match found with
       | None => ret collection_not_found_message
       | Some collection =>
           let* count := collection_count w collection in
           let report := [found_line count] in
           let* report :=
             if (0 <? count)%nat
             then
               let* items := collection_get collection 5 in
               ret (report ++ [sample_header]
                    ++ sample_lines 0 (fst items) (snd items))
             else ret report in
           ret (join report_separator report)
       end)
      (fun e => ret (inspect_error_message e)).

End WithWorld.

End inspection.
Import inspection.

(** *** What clearing may leave behind *)

Module ClearSpec.

Import settings.

Section WithVector.

Context {vector : Type}.

(** The message is one of the three of the source; no other collection
    changes; the collection is as it was, gone, or empty, and it is empty
    when the message says it was cleared. *)
Definition clear_post (st st' : state vector) (message : str) : Prop :=
  (message = cleared_message \/ message = nothing_to_clear_message
   \/ exists e, message = clear_error_message e)
  /\ (forall name, name <> COLLECTION_NAME ->
                   store st' !! name = store st !! name)
  /\ (store st' !! COLLECTION_NAME = store st !! COLLECTION_NAME
      \/ store st' !! COLLECTION_NAME = None
      \/ store st' !! COLLECTION_NAME = Some [])
  /\ (message = cleared_message -> store st' !! COLLECTION_NAME = Some []).

(** The store only grows at collection [name]: no other collection
    changes, and the items that were in the collection are still there,
    in place, possibly followed by new ones. *)
Definition append_only (name : str) (st st' : state vector) : Prop :=
  (forall other, other <> name -> store st' !! other = store st !! other)
  /\ (forall old, store st !! name = Some old ->
                  exists added, store st' !! name = Some (old ++ added)).

End WithVector.

End ClearSpec.
Import ClearSpec.

(** *** [handle_folder] (ingest_docs.py) *)

Module ingest_ui.

Import settings.




Section WithWorld.

Context {vector stream : Type} (w : world vector stream).
Context (os_path_isdir : str -> bool).

(** The [try] block of one file indexed the file whole: every chunk of its
    text was appended to the collection, with the title and path of the
    file, and the success line is returned. *)
Definition indexed_whole (collection file file_path html : str)
  (st st' : state vector) (r : result (option str)) : Prop :=
  exists title text old new_items,
    clean_html (html_parser w) html = Ok (title, text)
    /\ store st !! collection = Some old
    /\ store st' = <[collection := old ++ new_items]> (store st)
    /\ List.map item_document new_items = chunk_text text CHUNK_SIZE_TOKENS
    /\ Forall (fun it => item_metadata it = chunk_metadata title file_path)
         new_items
    /\ r = Ok (Some (success_line file
                       (length (chunk_text text CHUNK_SIZE_TOKENS)))).





End WithWorld.

End ingest_ui.
Import ingest_ui.

(** *** [handle_chat_submission] (frontend/app.py)

    The response stream is the list of its pieces, each with the text of
    [piece['message']['content']] when both keys are there.  The generator
    is the list of what it yields, each yield being the chat history as it
    stands and the value put in the sources pane, together with the
    exception that ended it, if any. *)

Module app.

Abbreviation history := (list (str * option str)).

Definition thinking : str := u "*Thinking...*".

(** One iteration of [for chunk in stream], on [(full_response, yields)]. *)
Definition stream_step (query sources : str) (earlier : history)
  (acc : str * list (history * str)) (piece : option str)
  : str * list (history * str) :=
  let '(full_response, yields) := acc in
  match piece with
  | Some chunk_content =>
      let full_response := full_response ++ chunk_content in
      (full_response,
       yields ++ [(earlier ++ [(query, Some full_response)], sources)])
  | None => (full_response, yields)
  end.

(** The texts of the pieces that carry one, and the answers shown as they
    arrive: each the concatenation of the texts so far. *)
Definition contents_of (stream : list (option str)) : list str :=
  flat_map (fun piece => match piece with Some c => [c] | None => [] end)
    stream.

Fixpoint running (contents : list str) : list str :=
  match contents with
  | [] => []
  | c :: contents' => c :: List.map (fun t => c ++ t) (running contents')
  end.

Section WithWorld.

Context {vector : Type} (w : world vector (list (option str))).

Definition handle_chat_submission (query : str) (earlier : history)
  (st : state vector)
  : state vector * (list (history * str) * option exn) :=
  let first := (earlier ++ [(query, None)], thinking) in
  match get_rag_response_stream w query st with
  | (st', Raise e) => (st', ([first], Some e))
  | (st', Ok (None, sources)) =>
      (st', ([first; (earlier ++ [(query, Some sources)], sources)], None))
  | (st', Ok (Some stream, sources)) =>
      (st', (snd (fold_left (stream_step query sources earlier) stream
                    ([], [first])), None))
  end.

End WithWorld.

End app.
Import app.

(** *** Calls to the store, and more concrete inputs *)

Module MoreExamples.

Import settings.

(** A call that goes to the store: neither service of the model. *)
Definition store_event (ev : event) : bool :=
  negb (is_chat ev) && negb (is_embeddings ev).

(** A page with a doctype, a style sheet, a comment and a script. *)
Definition styled_page : list node :=
  [OtherString Doctype (u "html");
   Tag (u "html")
     [Tag (u "head")
        [Tag (u "title") [NavigableString (u " Pricing ")];
         Tag (u "style") [OtherString ContainerString (u "p { color: red }")]];
      Tag (u "body")
        [OtherString Comment (u " navigation ");
         Tag (u "p") [NavigableString (u " Plans start at ten ")];
         Tag (u "script") [OtherString ContainerString (u "track()")];
         NavigableString [nl]]]].

(** A world whose generation service streams three pieces, the second
    without text. *)
Definition chat_world : world (list Z) (list (option str)) :=
  World (demo_walk []) demo_open_read demo_parser
    (fun _ _ prompt => Ok (demo_embed prompt))
    (fun _ _ _ => Ok [Some (u "Plans start "); None; Some (u "at ten.")])
    (fun _ => None)
    (fun n => u "uuid-" ++ str_of_nat n)
    demo_distance.


Definition earlier_turns : history :=
  [(u "Hello", Some (u "Hi, how can I help?"))].

End MoreExamples.
Import MoreExamples.

(** * Properties *)

(** ** Strings: tokens, trimming, sorting *)

Module PyStrFacts.

Lemma isspace_nl : isspace nl = true.
Proof. reflexivity. Qed.

Lemma split_ws_from_cut cur a c b :
  isspace c = true ->
  split_ws_from cur (a ++ c :: b)
  = split_ws_from cur (a ++ [c]) ++ split_ws_from [] b.
Proof.
  intros Hc. revert cur.
  induction a as [|x a IH]; intros cur; simpl.
  - rewrite Hc. destruct (truthy cur); reflexivity.
  - destruct (isspace x); [destruct (truthy cur)|]; simpl; rewrite IH;
      reflexivity.
Qed.

Lemma split_ws_from_snoc_space cur a c :
  isspace c = true -> split_ws_from cur (a ++ [c]) = split_ws_from cur a.
Proof.
  intros Hc. revert cur.
  induction a as [|x a IH]; intros cur; simpl.
  - rewrite Hc. destruct (truthy cur); reflexivity.
  - destruct (isspace x); [destruct (truthy cur)|]; rewrite IH; reflexivity.
Qed.

Lemma split_ws_from_trailing cur a sp :
  forallb isspace sp = true -> split_ws_from cur (a ++ sp) = split_ws_from cur a.
Proof.
  revert a. induction sp as [|c sp IH]; intros a Hsp.
  - rewrite app_nil_r. reflexivity.
  - simpl in Hsp. apply andb_prop in Hsp as [Hc Hsp].
    change (c :: sp) with ([c] ++ sp). rewrite app_assoc, IH by exact Hsp.
    apply split_ws_from_snoc_space, Hc.
Qed.

(** Tokens on both sides of a white-space character are independent. *)
Lemma split_ws_cut a c b :
  isspace c = true -> split_ws (a ++ c :: b) = split_ws a ++ split_ws b.
Proof.
  intros Hc. unfold split_ws.
  rewrite split_ws_from_cut, split_ws_from_snoc_space by exact Hc.
  reflexivity.
Qed.

Lemma lstrip_split s :
  exists sp, s = sp ++ lstrip s /\ forallb isspace sp = true.
Proof.
  induction s as [|c s [sp [Hs Hsp]]]; simpl.
  - exists []. split; reflexivity.
  - destruct (isspace c) eqn:Hc.
    + exists (c :: sp). simpl. rewrite Hc, Hsp. split; [congruence|reflexivity].
    + exists []. split; reflexivity.
Qed.

Lemma split_ws_lstrip s : split_ws (lstrip s) = split_ws s.
Proof.
  unfold split_ws. induction s as [|c s IH]; simpl; [reflexivity|].
  destruct (isspace c) eqn:Hc; simpl; [exact IH|].
  rewrite Hc. reflexivity.
Qed.

Lemma forallb_rev {A} (f : A -> bool) l :
  forallb f (rev l) = forallb f l.
Proof.
  induction l as [|x l IH]; simpl; [reflexivity|].
  rewrite forallb_app, IH. simpl. rewrite andb_true_r. apply andb_comm.
Qed.

Lemma split_ws_rstrip s : split_ws (rstrip s) = split_ws s.
Proof.
  unfold rstrip. destruct (lstrip_split (rev s)) as [sp [Hs Hsp]].
  assert (Hrev : s = rev (lstrip (rev s)) ++ rev sp).
  { rewrite <- rev_app_distr, <- Hs, rev_involutive. reflexivity. }
  rewrite Hrev at 2. unfold split_ws.
  rewrite split_ws_from_trailing; [reflexivity|].
  rewrite forallb_rev. exact Hsp.
Qed.

Lemma word_count_strip s : word_count (strip s) = word_count s.
Proof.
  unfold word_count, strip. rewrite split_ws_rstrip, split_ws_lstrip.
  reflexivity.
Qed.

Lemma word_count_cut a c b :
  isspace c = true ->
  word_count (a ++ c :: b) = (word_count a + word_count b)%Z.
Proof.
  intros Hc. unfold word_count. rewrite split_ws_cut by exact Hc.
  rewrite length_app. lia.
Qed.

Lemma word_count_nil : word_count [] = 0%Z.
Proof. reflexivity. Qed.

Lemma word_count_nonneg s : (0 <= word_count s)%Z.
Proof. unfold word_count. lia. Qed.

Lemma truthy_split_ws_from cur s :
  truthy (split_ws_from cur s) = truthy cur || has_word s.
Proof.
  revert cur. induction s as [|c s IH]; intros cur; simpl.
  - destruct cur; reflexivity.
  - destruct (isspace c); simpl.
    + destruct cur; simpl; [apply IH|reflexivity].
    + rewrite IH. destruct cur; reflexivity.
Qed.

Lemma truthy_lstrip s : truthy (lstrip s) = has_word s.
Proof.
  induction s as [|c s IH]; simpl; [reflexivity|].
  destruct (isspace c); simpl; [exact IH|reflexivity].
Qed.

Lemma has_word_lstrip s : has_word (lstrip s) = has_word s.
Proof.
  induction s as [|c s IH]; simpl; [reflexivity|].
  destruct (isspace c) eqn:Hc; simpl; [exact IH|].
  rewrite Hc. reflexivity.
Qed.

Lemma has_word_rev s : has_word (rev s) = has_word s.
Proof.
  unfold has_word. induction s as [|c s IH]; simpl; [reflexivity|].
  rewrite existsb_app, IH. simpl. rewrite orb_false_r. apply orb_comm.
Qed.

Lemma truthy_rev {A} (l : list A) : truthy (rev l) = truthy l.
Proof.
  destruct l as [|x l]; simpl; [reflexivity|].
  destruct (rev l); reflexivity.
Qed.

(** A string survives trimming exactly when it holds a token. *)
Lemma truthy_strip s : truthy (strip s) = truthy (split_ws s).
Proof.
  unfold strip, rstrip, split_ws.
  rewrite truthy_rev, truthy_lstrip, has_word_rev, has_word_lstrip.
  rewrite truthy_split_ws_from. reflexivity.
Qed.

Lemma strip_blank s : truthy (split_ws s) = false -> strip s = [].
Proof.
  rewrite <- truthy_strip. destruct (strip s); [reflexivity|discriminate].
Qed.

End PyStrFacts.
Import PyStrFacts.

(** ** The chunker *)

Module ChunkerFacts.

Lemma buffer_of_snoc group para :
  buffer_of (group ++ [para]) = buffer_of group ++ para ++ [nl].
Proof.
  unfold buffer_of. rewrite map_app, concat_app. simpl.
  rewrite app_nil_r. reflexivity.
Qed.

Lemma word_count_para_nl para : word_count (para ++ [nl]) = word_count para.
Proof.
  rewrite (word_count_cut para nl []) by apply isspace_nl.
  rewrite word_count_nil. lia.
Qed.

Lemma word_count_buffer_snoc group para :
  word_count (buffer_of (group ++ [para]))
  = (word_count (buffer_of group) + word_count para)%Z.
Proof.
  rewrite buffer_of_snoc.
  assert (H : buffer_of group = [] \/ exists b, buffer_of group = b ++ [nl]).
  { destruct group as [|g group _] using rev_ind; [left; reflexivity|].
    right. rewrite buffer_of_snoc. exists (buffer_of group ++ g).
    rewrite <- app_assoc. reflexivity. }
  destruct H as [-> | [b ->]].
  - simpl. rewrite word_count_para_nl, word_count_nil. lia.
  - rewrite <- app_assoc. simpl.
    rewrite (word_count_cut b nl (para ++ [nl])) by apply isspace_nl.
    rewrite word_count_para_nl, word_count_para_nl. reflexivity.
Qed.

Lemma word_count_render group :
  word_count (render group) = word_count (buffer_of group).
Proof. apply word_count_strip. Qed.

(** The loop on buffers and the loop on paragraph groups run in lock
    step. *)
Lemma fold_chunk_group mt paras chunks cur groups group :
  chunks = List.map render groups ->
  cur = buffer_of group ->
  let '(chunks', cur') := fold_left (chunk_step mt) paras (chunks, cur) in
  let '(groups', group') := fold_left (group_step mt) paras (groups, group) in
  chunks' = List.map render groups' /\ cur' = buffer_of group'.
Proof.
  revert chunks cur groups group.
  induction paras as [|para paras IH]; intros chunks cur groups group Hc Hb.
  - simpl. split; assumption.
  - simpl. subst cur.
    destruct (word_count (buffer_of group) + word_count para <? mt)%Z.
    + apply IH; [assumption|]. rewrite buffer_of_snoc. reflexivity.
    + apply IH.
      * subst chunks. rewrite map_app. reflexivity.
      * unfold buffer_of. simpl. rewrite app_nil_r. reflexivity.
Qed.

(** Every chunk is the rendering of its group of paragraphs. *)
Lemma chunk_text_groups text mt :
  chunk_text text mt = List.map render (chunk_groups text mt).
Proof.
  unfold chunk_text, chunk_groups.
  pose proof (fold_chunk_group mt (split_on nl text) [] [] [] []
                eq_refl eq_refl) as H.
  destruct (fold_left (chunk_step mt) _ _) as [chunks cur].
  destruct (fold_left (group_step mt) _ _) as [groups group].
  destruct H as [-> ->]. fold (render group).
  destruct (truthy (render group)); [|reflexivity].
  rewrite map_app. reflexivity.
Qed.

Lemma fold_group_inv mt paras groups group :
  Forall (buffer_inv mt) groups -> buffer_inv mt group ->
  let '(groups', group') := fold_left (group_step mt) paras (groups, group) in
  Forall (buffer_inv mt) groups' /\ buffer_inv mt group'.
Proof.
  revert groups group.
  induction paras as [|para paras IH]; intros groups group Hgs Hg.
  - simpl. split; assumption.
  - simpl.
    destruct (word_count (buffer_of group) + word_count para <? mt)%Z eqn:Hlt.
    + apply IH; [assumption|].
      right; right. rewrite word_count_buffer_snoc.
      apply Z.ltb_lt in Hlt. exact Hlt.
    + apply IH.
      * apply Forall_app. split; [assumption|]. constructor; [assumption|constructor].
      * right; left. exists para. reflexivity.
Qed.

Lemma chunk_groups_inv text mt : Forall (buffer_inv mt) (chunk_groups text mt).
Proof.
  unfold chunk_groups.
  pose proof (fold_group_inv mt (split_on nl text) [] []
                ltac:(constructor) (or_introl eq_refl)) as H.
  destruct (fold_left (group_step mt) _ _) as [groups group].
  destruct H as [Hgs Hg].
  destruct (truthy (render group)); [|assumption].
  apply Forall_app. split; [assumption|]. constructor; [assumption|constructor].
Qed.

Lemma fold_group_concat mt paras groups group :
  let '(groups', group') := fold_left (group_step mt) paras (groups, group) in
  concat groups' ++ group' = (concat groups ++ group) ++ paras.
Proof.
  revert groups group.
  induction paras as [|para paras IH]; intros groups group.
  - simpl. rewrite app_nil_r. reflexivity.
  - simpl.
    destruct (word_count (buffer_of group) + word_count para <? mt)%Z.
    + specialize (IH groups (group ++ [para])).
      destruct (fold_left _ _ _) as [groups' group'].
      rewrite IH, <- !app_assoc. reflexivity.
    + specialize (IH (groups ++ [group]) [para]).
      destruct (fold_left _ _ _) as [groups' group'].
      rewrite IH, concat_app. simpl. rewrite app_nil_r, <- !app_assoc.
      reflexivity.
Qed.

Lemma word_count_zero s : word_count s = 0%Z -> truthy (split_ws s) = false.
Proof.
  unfold word_count. destruct (split_ws s); [reflexivity|simpl; lia].
Qed.

Lemma truthy_word_count s : truthy (split_ws s) = false -> word_count s = 0%Z.
Proof.
  unfold word_count. destruct (split_ws s); [reflexivity|discriminate].
Qed.

Lemma blank_buffer_wc group :
  word_count (buffer_of group) = 0%Z ->
  Forall (fun p => blank p = true) group.
Proof.
  induction group as [|para group IH] using rev_ind; [constructor|].
  rewrite word_count_buffer_snoc. intros H.
  pose proof (word_count_nonneg (buffer_of group)).
  pose proof (word_count_nonneg para).
  apply Forall_app. split.
  - apply IH. lia.
  - constructor; [|constructor]. unfold blank.
    rewrite word_count_zero; [reflexivity|lia].
Qed.

Lemma blank_buffer group :
  truthy (render group) = false -> Forall (fun p => blank p = true) group.
Proof.
  unfold render. rewrite truthy_strip. intros H.
  apply blank_buffer_wc, truthy_word_count, H.
Qed.

(** The groups are consecutive runs of the paragraphs of the text, in
    order; what is left over at the end is blank. *)
Lemma chunk_groups_cover text mt :
  exists rest,
    split_on nl text = concat (chunk_groups text mt) ++ rest
    /\ Forall (fun p => blank p = true) rest.
Proof.
  unfold chunk_groups.
  pose proof (fold_group_concat mt (split_on nl text) [] []) as H.
  destruct (fold_left (group_step mt) _ _) as [groups group].
  simpl in H.
  destruct (truthy (render group)) eqn:Ht.
  - exists []. split; [|constructor].
    rewrite concat_app. simpl. rewrite !app_nil_r. symmetry. exact H.
  - exists group. split; [symmetry; exact H|].
    apply blank_buffer, Ht.
Qed.

End ChunkerFacts.
Import ChunkerFacts.

(** ** Running the store calls *)

Module ServicesFacts.

Section WithWorld.

Context {vector stream : Type} (w : world vector stream).

Lemma bind_run {A B} (m : M vector A) (k : A -> M vector B) st :
  bind m k st
  = match m st with
    | (st', Ok a) => k a st'
    | (st', Raise e) => (st', Raise e)
    end.
Proof. reflexivity. Qed.

Lemma chroma_call_run {A} ev (body : M vector A) st :
  chroma_call w ev body st
  = match chroma_fault w (trace st ++ [ev]) with
    | Some e => (logged ev st, Raise e)
    | None => body (logged ev st)
    end.
Proof. reflexivity. Qed.

Lemma PersistentClient_run st :
  PersistentClient w st
  = (logged EvPersistentClient st,
     match chroma_fault w (trace st ++ [EvPersistentClient]) with
     | Some e => Raise e
     | None => Ok tt
     end).
Proof.
  unfold PersistentClient. rewrite chroma_call_run.
  destruct (chroma_fault w _); reflexivity.
Qed.

Lemma get_collection_run name st :
  get_collection w name st
  = (logged (EvGetCollection name) st,
     match chroma_fault w (trace st ++ [EvGetCollection name]) with
     | Some e => Raise e
     | None =>
         match store st !! name with
         | Some _ => Ok name
         | None => Raise (no_such_collection name)
         end
     end).
Proof.
  unfold get_collection. rewrite chroma_call_run.
  destruct (chroma_fault w _); [reflexivity|].
  unfold bind, get_store. simpl.
  destruct (store st !! name); reflexivity.
Qed.

Lemma collection_query_run name q k st :
  collection_query w name q k st
  = (logged (EvQuery name k) st,
     match chroma_fault w (trace st ++ [EvQuery name k]) with
     | Some e => Raise e
     | None =>
         match store st !! name with
         | Some items =>
             let hits := take k (ranked w q items) in
             Ok (QueryResult [List.map item_id hits]
                             [List.map item_document hits]
                             [List.map item_metadata hits])
         | None => Raise (no_such_collection name)
         end
     end).
Proof.
  unfold collection_query. rewrite chroma_call_run.
  destruct (chroma_fault w _); [reflexivity|].
  unfold bind, get_store. simpl.
  destruct (store st !! name); reflexivity.
Qed.

Lemma collection_count_run name st :
  collection_count w name st
  = (logged (EvCount name) st,
     match chroma_fault w (trace st ++ [EvCount name]) with
     | Some e => Raise e
     | None =>
         match store st !! name with
         | Some items => Ok (length items)
         | None => Raise (no_such_collection name)
         end
     end).
Proof.
  unfold collection_count. rewrite chroma_call_run.
  destruct (chroma_fault w _); [reflexivity|].
  unfold bind, get_store. simpl.
  destruct (store st !! name); reflexivity.
Qed.

Lemma delete_collection_run name st :
  delete_collection w name st
  = match chroma_fault w (trace st ++ [EvDeleteCollection name]) with
    | Some e => (logged (EvDeleteCollection name) st, Raise e)
    | None =>
        match store st !! name with
        | Some _ =>
            (State (trace st ++ [EvDeleteCollection name])
                   (delete name (store st)) (uuids_drawn st), Ok tt)
        | None =>
            (logged (EvDeleteCollection name) st,
             Raise (no_such_collection name))
        end
    end.
Proof.
  unfold delete_collection. rewrite chroma_call_run.
  destruct (chroma_fault w _); [reflexivity|].
  unfold bind, get_store. simpl.
  destruct (store st !! name); reflexivity.
Qed.

Lemma create_collection_run name st :
  create_collection w name st
  = match chroma_fault w (trace st ++ [EvCreateCollection name]) with
    | Some e => (logged (EvCreateCollection name) st, Raise e)
    | None =>
        match store st !! name with
        | Some _ =>
            (logged (EvCreateCollection name) st,
             Raise (collection_exists name))
        | None =>
            (State (trace st ++ [EvCreateCollection name])
                   (<[name := []]> (store st)) (uuids_drawn st), Ok name)
        end
    end.
Proof.
  unfold create_collection. rewrite chroma_call_run.
  destruct (chroma_fault w _); [reflexivity|].
  unfold bind, get_store. simpl.
  destruct (store st !! name); reflexivity.
Qed.

Lemma embeddings_run model prompt st :
  embeddings w model prompt st
  = (logged (EvEmbeddings model prompt) st,
     ollama_embeddings w (trace st ++ [EvEmbeddings model prompt])
       model prompt).
Proof. reflexivity. Qed.

Lemma chat_run model prompt st :
  chat w model prompt st
  = (logged (EvChat model prompt) st,
     ollama_chat w (trace st ++ [EvChat model prompt]) model prompt).
Proof. reflexivity. Qed.

End WithWorld.

End ServicesFacts.
Import ServicesFacts.

(** ** Retrieval ([search_vector_db]) and clearing *)

Module VectorDbFacts.

Import settings.

Section WithWorld.

Context {vector stream : Type} (w : world vector stream).

Lemma zip_retrieved_map (hits : list (item vector)) :
  zip_retrieved (List.map item_document hits) (List.map item_metadata hits)
  = List.map normalize hits.
Proof.
  induction hits as [|it hits IH]; simpl; [reflexivity|].
  rewrite IH. reflexivity.
Qed.

(** The [try] block, call by call. *)
Lemma search_body_run q k st :
  search_body w q k st
  = let st1 := logged EvPersistentClient st in
    let st2 := logged (EvGetCollection COLLECTION_NAME) st1 in
    let st3 := logged (EvQuery COLLECTION_NAME k) st2 in
    match chroma_fault w (trace st1) with
    | Some e => (st1, Raise e)
    | None =>
        match chroma_fault w (trace st2) with
        | Some e => (st2, Raise e)
        | None =>
            match store st !! COLLECTION_NAME with
            | None => (st2, Raise (no_such_collection COLLECTION_NAME))
            | Some items =>
                match chroma_fault w (trace st3) with
                | Some e => (st3, Raise e)
                | None =>
                    (st3, Ok (List.map normalize (take k (ranked w q items))))
                end
            end
        end
    end.
Proof.
  unfold search_body. cbv zeta.
  rewrite bind_run, PersistentClient_run.
  change (trace st ++ [EvPersistentClient])
    with (trace (logged EvPersistentClient st)).
  set (st1 := logged EvPersistentClient st).
  destruct (chroma_fault w (trace st1)); [reflexivity|].
  rewrite bind_run, get_collection_run.
  change (trace st1 ++ [EvGetCollection COLLECTION_NAME])
    with (trace (logged (EvGetCollection COLLECTION_NAME) st1)).
  set (st2 := logged (EvGetCollection COLLECTION_NAME) st1).
  destruct (chroma_fault w (trace st2)); [reflexivity|].
  change (store st1) with (store st).
  destruct (store st !! COLLECTION_NAME) as [items|] eqn:Hitems;
    [|reflexivity].
  rewrite bind_run, collection_query_run.
  change (trace st2 ++ [EvQuery COLLECTION_NAME k])
    with (trace (logged (EvQuery COLLECTION_NAME k) st2)).
  set (st3 := logged (EvQuery COLLECTION_NAME k) st2).
  destruct (chroma_fault w (trace st3)); [reflexivity|].
  change (store st2) with (store st). rewrite Hitems. cbv zeta.
  cbn [ids documents metadatas].
  destruct (take k (ranked w q items)) as [|hit hits] eqn:Hhits.
  - reflexivity.
  - rewrite <- zip_retrieved_map. reflexivity.
Qed.

(** Both handlers return the empty list. *)
Lemma search_vector_db_run q k st :
  search_vector_db w q k st
  = match search_body w q k st with
    | (st', Ok l) => (st', Ok l)
    | (st', Raise _) => (st', Ok [])
    end.
Proof.
  unfold search_vector_db, try_except.
  destruct (search_body w q k st) as [st' [l|e]]; [reflexivity|].
  destruct (exn_cls e); reflexivity.
Qed.

Lemma search_vector_db_total q k st :
  exists st' l, search_vector_db w q k st = (st', Ok l).
Proof.
  rewrite search_vector_db_run.
  destruct (search_body w q k st) as [st' [l|e]]; eauto.
Qed.

Lemma search_raise_empty q k st st' e :
  search_body w q k st = (st', Raise e) ->
  search_vector_db w q k st = (st', Ok []).
Proof. intros H. rewrite search_vector_db_run, H. reflexivity. Qed.

Lemma search_missing_empty q k st :
  store st !! COLLECTION_NAME = None ->
  exists st', search_vector_db w q k st = (st', Ok []).
Proof.
  intros H. rewrite search_vector_db_run, search_body_run, H. cbv zeta.
  repeat (destruct (chroma_fault w _)); eauto.
Qed.

Lemma search_zero_matches_empty q k st items :
  store st !! COLLECTION_NAME = Some items ->
  take k (ranked w q items) = [] ->
  exists st', search_vector_db w q k st = (st', Ok []).
Proof.
  intros H H0. rewrite search_vector_db_run, search_body_run, H, H0. cbv zeta.
  repeat (destruct (chroma_fault w _)); eauto.
Qed.

Lemma search_hits q k st items :
  reliable w ->
  store st !! COLLECTION_NAME = Some items ->
  exists st',
    search_vector_db w q k st
    = (st', Ok (List.map normalize (take k (ranked w q items)))).
Proof.
  intros Hrel H. rewrite search_vector_db_run, search_body_run, H. cbv zeta.
  rewrite !Hrel. eauto.
Qed.

(** Retrieval only talks to the store, and leaves it as it was. *)
Lemma search_vector_db_frame q k st st' r :
  search_vector_db w q k st = (st', r) ->
  store st' = store st
  /\ exists evs, trace st' = trace st ++ evs
                 /\ forallb (fun ev => negb (is_chat ev)) evs = true.
Proof.
  rewrite search_vector_db_run, search_body_run. cbv zeta.
  set (e1 := EvPersistentClient).
  set (e2 := EvGetCollection COLLECTION_NAME).
  set (e3 := EvQuery COLLECTION_NAME k).
  intros H.
  assert (Hcases :
    st' = logged e1 st \/ st' = logged e2 (logged e1 st)
    \/ st' = logged e3 (logged e2 (logged e1 st))).
  { repeat (destruct (chroma_fault w _) || destruct (store st !! _));
      inversion H; auto. }
  destruct Hcases as [-> | [-> | ->]]; (split; [reflexivity|]); simpl.
  - exists [e1]. split; reflexivity.
  - exists [e1; e2]. rewrite <- app_assoc. split; reflexivity.
  - exists [e1; e2; e3]. rewrite <- !app_assoc. split; reflexivity.
Qed.

End WithWorld.

End VectorDbFacts.
Import VectorDbFacts.

Module ClearFacts.

Import settings.

Section WithWorld.

Context {vector stream : Type} (w : world vector stream).

Lemma clear_present st items :
  reliable w ->
  store st !! COLLECTION_NAME = Some items ->
  clear_database_collection w st
  = (State (trace st ++ [EvPersistentClient;
                         EvGetCollection COLLECTION_NAME;
                         EvDeleteCollection COLLECTION_NAME;
                         EvCreateCollection COLLECTION_NAME])
           (<[COLLECTION_NAME := []]> (store st)) (uuids_drawn st),
     Ok cleared_message).
Proof.
  intros Hrel Hitems.
  unfold clear_database_collection, try_except.
  rewrite bind_run, PersistentClient_run, Hrel.
  rewrite bind_run, get_collection_run, Hrel.
  cbn [store logged]. rewrite Hitems.
  rewrite bind_run, delete_collection_run, Hrel.
  cbn [store logged]. rewrite Hitems.
  rewrite bind_run, create_collection_run, Hrel.
  cbn [store trace uuids_drawn logged]. rewrite lookup_delete_eq.
  unfold ret. rewrite insert_delete_eq, <- !app_assoc. reflexivity.
Qed.

Lemma clear_absent st :
  reliable w ->
  store st !! COLLECTION_NAME = None ->
  clear_database_collection w st
  = (State (trace st ++ [EvPersistentClient;
                         EvGetCollection COLLECTION_NAME])
           (store st) (uuids_drawn st),
     Ok nothing_to_clear_message).
Proof.
  intros Hrel Hitems.
  unfold clear_database_collection, try_except.
  rewrite bind_run, PersistentClient_run, Hrel.
  rewrite bind_run, get_collection_run, Hrel.
  cbn [store trace uuids_drawn logged]. rewrite Hitems.
  cbn [exn_cls no_such_collection]. unfold ret, logged.
  cbn [store trace uuids_drawn]. rewrite <- !app_assoc. reflexivity.
Qed.

End WithWorld.

End ClearFacts.
Import ClearFacts.

(** ** Sorting and first occurrences *)

Module CitationFacts.

Lemma str_leb_total a b : str_leb a b = false -> str_leb b a = true.
Proof.
  revert b. induction a as [|x a IH]; intros [|y b]; simpl; try discriminate;
    try reflexivity.
  destruct (x <? y) eqn:Hxy; [discriminate|].
  destruct (y <? x) eqn:Hyx; [reflexivity|].
  apply IH.
Qed.

Lemma insert_sorted_perm x l : Permutation (insert_sorted x l) (x :: l).
Proof.
  induction l as [|y l IH]; simpl; [reflexivity|].
  destruct (str_leb x y); [reflexivity|].
  rewrite IH. apply perm_swap.
Qed.

Lemma sorted_perm l : Permutation (sorted l) l.
Proof.
  induction l as [|x l IH]; simpl; [reflexivity|].
  rewrite insert_sorted_perm, IH. reflexivity.
Qed.

Lemma insert_sorted_hd x y l :
  str_le y x -> HdRel str_le y l -> HdRel str_le y (insert_sorted x l).
Proof.
  intros Hyx Hhd. destruct l as [|z l]; simpl.
  - constructor. exact Hyx.
  - destruct (str_leb x z); constructor; [exact Hyx|].
    inversion Hhd; assumption.
Qed.

Lemma insert_sorted_sorted x l :
  Sorted str_le l -> Sorted str_le (insert_sorted x l).
Proof.
  induction 1 as [|y l Hs IH Hhd]; simpl.
  - repeat constructor.
  - destruct (str_leb x y) eqn:Hxy.
    + constructor; [constructor; assumption|]. constructor. exact Hxy.
    + constructor; [exact IH|].
      apply insert_sorted_hd; [|exact Hhd].
      apply str_leb_total, Hxy.
Qed.

Lemma sorted_sorted l : Sorted str_le (sorted l).
Proof.
  induction l as [|x l IH]; simpl; [constructor|].
  apply insert_sorted_sorted, IH.
Qed.

Lemma filter_filter_and {A} (f g : A -> bool) l :
  List.filter f (List.filter g l) = List.filter (fun x => f x && g x) l.
Proof.
  induction l as [|x l IH]; simpl; [reflexivity|].
  destruct (g x); simpl; [destruct (f x)|rewrite andb_false_r]; rewrite IH;
    reflexivity.
Qed.

Lemma first_occurrences_In p paths :
  In p (first_occurrences paths) <-> In p paths.
Proof.
  induction paths as [|q paths IH]; simpl; [reflexivity|].
  rewrite filter_In, IH. split.
  - intros [H | [H _]]; auto.
  - intros [H | H]; [auto|].
    destruct (decide (p = q)) as [->|Hne]; [auto|].
    right. split; [exact H|]. rewrite bool_decide_eq_false_2; auto.
Qed.

Lemma first_occurrences_NoDup paths : List.NoDup (first_occurrences paths).
Proof.
  induction paths as [|q paths IH]; simpl; constructor.
  - rewrite filter_In. intros [_ H].
    rewrite bool_decide_eq_true_2 in H; [discriminate|reflexivity].
  - apply List.NoDup_filter, IH.
Qed.

(** The loop with its [seen_paths] set keeps exactly the first
    occurrences not seen before. *)
Lemma fold_sources_step (chunks : list retrieved) (docs : list str)
  (seen : gset str) :
  fst (fold_left sources_step chunks (docs, seen))
  = docs ++ List.map basename
      (List.filter (fun p => bool_decide (p ∉ seen))
         (first_occurrences (source_paths chunks))).
Proof.
  revert docs seen.
  induction chunks as [|chunk chunks IH]; intros docs seen.
  - simpl. rewrite app_nil_r. reflexivity.
  - unfold source_paths. simpl fold_left. simpl flat_map.
    fold (source_paths chunks).
    unfold source_path_of.
    destruct (metadata chunk !! u "source_path") as [p|]; [|apply IH].
    destruct (truthy p); [|apply IH]. simpl.
    destruct (bool_decide (p ∉ seen)) eqn:Hp.
    + rewrite IH, <- app_assoc. simpl. do 3 f_equal.
      rewrite filter_filter_and. apply filter_ext. intros q.
      apply bool_decide_eq_true in Hp.
      destruct (decide (q = p)) as [->|Hne].
      * rewrite (bool_decide_eq_true_2 (p = p)) by reflexivity.
        rewrite andb_false_r. apply bool_decide_eq_false_2. set_solver.
      * rewrite (bool_decide_eq_false_2 (q = p)) by exact Hne.
        rewrite andb_true_r. apply bool_decide_ext.
        rewrite elem_of_union, elem_of_singleton. tauto.
    + rewrite IH. f_equal. f_equal.
      rewrite filter_filter_and. apply filter_ext. intros q.
      apply bool_decide_eq_false in Hp.
      destruct (decide (q = p)) as [->|Hne].
      * rewrite (bool_decide_eq_false_2 (p ∉ seen)) by exact Hp.
        reflexivity.
      * rewrite (bool_decide_eq_false_2 (q = p)) by exact Hne.
        rewrite andb_true_r. reflexivity.
Qed.

Lemma source_documents_first_occurrences results :
  source_documents results
  = List.map basename (first_occurrences (source_paths results)).
Proof.
  unfold source_documents. rewrite fold_sources_step. simpl.
  f_equal. rewrite <- (filter_ext (fun _ => true)).
  - induction (first_occurrences _) as [|x l IH]; simpl; congruence.
  - intros p. symmetry. apply bool_decide_eq_true_2. set_solver.
Qed.

End CitationFacts.
Import CitationFacts.

(** ** Blank input and the leading chunk *)

Module ChunkerEdgeFacts.

Lemma truthy_split_ws s : truthy (split_ws s) = has_word s.
Proof. unfold split_ws. rewrite truthy_split_ws_from. reflexivity. Qed.

Lemma blank_has_word para : blank para = true <-> has_word para = false.
Proof.
  unfold blank. rewrite truthy_split_ws.
  destruct (has_word para); simpl; split; congruence.
Qed.

Lemma word_count_blank s : has_word s = false -> word_count s = 0%Z.
Proof. intros H. apply truthy_word_count. rewrite truthy_split_ws. exact H. Qed.

Lemma strip_no_word s : has_word s = false -> strip s = [].
Proof. intros H. apply strip_blank. rewrite truthy_split_ws. exact H. Qed.

Lemma has_word_buffer cur para :
  has_word cur = false -> has_word para = false ->
  has_word (cur ++ para ++ [nl]) = false.
Proof.
  intros Hc Hp. unfold has_word in *.
  rewrite !existsb_app, Hc, Hp. reflexivity.
Qed.

(** Blank paragraphs below a positive bound only grow a blank buffer. *)
Lemma fold_blank mt paras chunks cur :
  (0 < mt)%Z ->
  Forall (fun p => blank p = true) paras ->
  has_word cur = false ->
  exists cur',
    fold_left (chunk_step mt) paras (chunks, cur) = (chunks, cur')
    /\ has_word cur' = false.
Proof.
  intros Hmt Hparas. revert cur.
  induction Hparas as [|para paras Hp _ IH]; intros cur Hcur; simpl.
  - exists cur. split; [reflexivity|exact Hcur].
  - apply blank_has_word in Hp.
    rewrite (word_count_blank cur), (word_count_blank para) by assumption.
    destruct (0 + 0 <? mt)%Z eqn:Hlt; [|apply Z.ltb_ge in Hlt; lia].
    apply IH, has_word_buffer; assumption.
Qed.

Lemma chunk_text_blank text mt :
  (0 < mt)%Z ->
  Forall (fun p => blank p = true) (split_on nl text) ->
  chunk_text text mt = [].
Proof.
  intros Hmt Hblank. unfold chunk_text.
  destruct (fold_blank mt (split_on nl text) [] [] Hmt Hblank eq_refl)
    as [cur' [-> Hcur']].
  rewrite strip_no_word by exact Hcur'. reflexivity.
Qed.

(** Once the first chunk is out, it stays first. *)
Lemma fold_keeps_head mt paras first tail cur :
  exists tail' cur',
    fold_left (chunk_step mt) paras (first :: tail, cur)
    = (first :: tail', cur').
Proof.
  revert tail cur. induction paras as [|para paras IH]; intros tail cur; simpl.
  - eauto.
  - destruct (word_count cur + word_count para <? mt)%Z; [apply IH|].
    apply (IH (tail ++ [strip cur])).
Qed.

(** Blank paragraphs leave either nothing emitted and a blank buffer, or
    an empty first chunk. *)
Lemma fold_blank_any_bound mt paras cur :
  Forall (fun p => blank p = true) paras ->
  has_word cur = false ->
  (exists cur',
     fold_left (chunk_step mt) paras ([], cur) = ([], cur')
     /\ has_word cur' = false)
  \/ (exists tail cur',
        fold_left (chunk_step mt) paras ([], cur) = ([] :: tail, cur')).
Proof.
  intros Hparas. revert cur.
  induction Hparas as [|para paras Hp _ IH]; intros cur Hcur; simpl.
  - left. eauto.
  - apply blank_has_word in Hp.
    destruct (word_count cur + word_count para <? mt)%Z.
    + apply IH, has_word_buffer; assumption.
    + right. rewrite (strip_no_word cur) by exact Hcur.
      apply fold_keeps_head.
Qed.

(** When the first paragraph that holds a token reaches the bound by
    itself, the first chunk emitted is the empty string. *)
Lemma chunk_text_leading_empty text mt blanks para rest :
  split_on nl text = blanks ++ para :: rest ->
  Forall (fun p => blank p = true) blanks ->
  (mt <= word_count para)%Z ->
  exists tail, chunk_text text mt = [] :: tail.
Proof.
  intros Hsplit Hblanks Hbig. unfold chunk_text. rewrite Hsplit.
  rewrite fold_left_app.
  assert (Hhead : exists tail cur',
    fold_left (chunk_step mt) (para :: rest)
      (fold_left (chunk_step mt) blanks ([], []))
    = ([] :: tail, cur')).
  { destruct (fold_blank_any_bound mt blanks [] Hblanks eq_refl)
      as [[cur [-> Hcur]] | [tail [cur ->]]].
    - simpl. rewrite (word_count_blank cur) by exact Hcur.
      destruct (0 + word_count para <? mt)%Z eqn:Hlt;
        [apply Z.ltb_lt in Hlt; lia|].
      rewrite (strip_no_word cur) by exact Hcur.
      apply fold_keeps_head.
    - apply fold_keeps_head. }
  destruct Hhead as [tail [cur' ->]].
  destruct (truthy (strip cur')); simpl; eauto.
Qed.

End ChunkerEdgeFacts.
Import ChunkerEdgeFacts.

(** ** The ingestion loop body *)

Module IngestFacts.

Import settings.

Section WithWorld.

Context {vector stream : Type} (w : world vector stream).

Lemma ingest_file_not_html collection root summary file st :
  is_html_name file = false ->
  ingest_file w collection root summary file st = (st, Ok summary).
Proof. intros H. unfold ingest_file. rewrite H. reflexivity. Qed.

(** A failing read is outside the [try]: it leaves the loop body as an
    exception. *)
Lemma ingest_file_read_raises collection root summary file st e :
  is_html_name file = true ->
  open_read w (path_join root file) = Raise e ->
  ingest_file w collection root summary file st = (st, Raise e).
Proof.
  intros Hname Hread. unfold ingest_file. rewrite Hname. simpl.
  rewrite bind_run. unfold lift. rewrite Hread. reflexivity.
Qed.

(** Whatever the [try] block raises becomes a failure line. *)
Lemma ingest_file_catches collection root summary file st html st' e :
  is_html_name file = true ->
  open_read w (path_join root file) = Ok html ->
  process_html w collection file (path_join root file) html st
  = (st', Raise e) ->
  ingest_file w collection root summary file st
  = (st', Ok (summary ++ [failure_line (path_join root file) e])).
Proof.
  intros Hname Hread Hproc. unfold ingest_file. rewrite Hname. simpl.
  rewrite bind_run. unfold lift. rewrite Hread.
  unfold try_except. rewrite bind_run, Hproc. reflexivity.
Qed.

(** After a successful read the loop body never raises. *)
Lemma ingest_file_total_after_read collection root summary file st html :
  open_read w (path_join root file) = Ok html ->
  exists st' summary',
    ingest_file w collection root summary file st = (st', Ok summary').
Proof.
  intros Hread. unfold ingest_file.
  destruct (is_html_name file); simpl; [|unfold ret; eauto].
  rewrite bind_run. unfold lift. rewrite Hread.
  unfold try_except. rewrite bind_run.
  destruct (process_html w collection file (path_join root file) html st)
    as [st' [[line|]|e]]; unfold ret; eauto.
Qed.

Lemma process_html_clean_raises collection file file_path html st e :
  clean_html (html_parser w) html = Raise e ->
  process_html w collection file file_path html st = (st, Raise e).
Proof.
  intros Hclean. unfold process_html. rewrite bind_run.
  unfold lift. rewrite Hclean. reflexivity.
Qed.

Lemma process_html_no_chunks collection file file_path html st title text :
  clean_html (html_parser w) html = Ok (title, text) ->
  chunk_text text CHUNK_SIZE_TOKENS = [] ->
  process_html w collection file file_path html st = (st, Ok None).
Proof.
  intros Hclean Hchunks. unfold process_html. rewrite bind_run.
  unfold lift. rewrite Hclean, Hchunks. reflexivity.
Qed.

Lemma ingest_file_no_chunks collection root summary file st html title text :
  is_html_name file = true ->
  open_read w (path_join root file) = Ok html ->
  clean_html (html_parser w) html = Ok (title, text) ->
  chunk_text text CHUNK_SIZE_TOKENS = [] ->
  ingest_file w collection root summary file st = (st, Ok summary).
Proof.
  intros Hname Hread Hclean Hchunks. unfold ingest_file. rewrite Hname. simpl.
  rewrite bind_run. unfold lift. rewrite Hread.
  unfold try_except. rewrite bind_run.
  rewrite (process_html_no_chunks _ _ _ _ _ title text) by assumption.
  reflexivity.
Qed.

End WithWorld.

End IngestFacts.
Import IngestFacts.

(** * The claims *)

(** ** Chunker *)

(** C1.  The chunker is to return non-empty strings only.  It does not:
    the flush inside the loop appends the trimmed buffer without the
    emptiness test that guards the final flush, so a first paragraph that
    reaches the bound by itself is preceded by an empty chunk; with three
    words and a bound of 2, and with a 400-word paragraph at the configured
    bound of 400. *)
Theorem chunk_text_emits_empty_chunk :
  chunk_text (u "alpha beta gamma") 2 = [ []; u "alpha beta gamma" ]
  /\ chunk_text long_paragraph settings.CHUNK_SIZE_TOKENS
     = [ []; strip long_paragraph ].
Proof. split; vm_compute; reflexivity. Qed.

(** C2.  For every text and every bound on the token count, that is every
    [max_tokens] from 0 up: every chunk of [chunk_text] is the rendering of
    a group of consecutive paragraphs of the text, and its token count is
    at most the bound, or the group is one paragraph that exceeds the
    bound by itself; a chunk of two or more paragraphs is strictly below
    the bound. *)
Theorem chunk_text_token_bound (text : str) (max_tokens : Z) :
  (0 <= max_tokens)%Z ->
  chunk_text text max_tokens
  = List.map render (chunk_groups text max_tokens)
  /\ (exists rest,
        split_on nl text = concat (chunk_groups text max_tokens) ++ rest)
  /\ Forall (chunk_bound_ok max_tokens) (chunk_groups text max_tokens)
  /\ Forall (fun group =>
               (2 <= length group)%nat ->
               (word_count (render group) < max_tokens)%Z)
       (chunk_groups text max_tokens).
Proof.
  intros Hmt. split; [apply chunk_text_groups|]. split.
  { destruct (chunk_groups_cover text max_tokens) as [rest [H _]]. eauto. }
  pose proof (chunk_groups_inv text max_tokens) as Hinv.
  split; eapply List.Forall_impl; try exact Hinv; intros group Hg; cbv beta.
  - destruct Hg as [-> | [[para ->] | Hlt]].
    + left. vm_compute word_count. exact Hmt.
    + destruct (Z_le_gt_dec (word_count para) max_tokens) as [Hle | Hgt].
      * left. rewrite word_count_render.
        change [para] with ([] ++ [para]). rewrite word_count_buffer_snoc.
        vm_compute (word_count (buffer_of [])). lia.
      * right. exists para. split; [reflexivity|lia].
    + left. rewrite word_count_render. lia.
  - intros Hlen. rewrite word_count_render.
    destruct Hg as [-> | [[para ->] | Hlt]]; simpl in Hlen; try lia.
Qed.

(** The bound on a three-paragraph text at bound 3: the second chunk is
    one paragraph of four tokens. *)
Lemma chunk_text_token_bound_witness :
  (0 <= 3)%Z
  /\ chunk_text (u "a b" ++ [nl] ++ u "c d e f" ++ [nl] ++ u "g") 3
     = [u "a b"; u "c d e f"; u "g"]
  /\ chunk_groups (u "a b" ++ [nl] ++ u "c d e f" ++ [nl] ++ u "g") 3
     = [[u "a b"]; [u "c d e f"]; [u "g"]]
  /\ Forall (chunk_bound_ok 3)
       (chunk_groups (u "a b" ++ [nl] ++ u "c d e f" ++ [nl] ++ u "g") 3).
Proof.
  split; [lia|]. split; [vm_compute; reflexivity|].
  split; [vm_compute; reflexivity|].
  apply (chunk_text_token_bound
           (u "a b" ++ [nl] ++ u "c d e f" ++ [nl] ++ u "g") 3).
  lia.
Defined.

(** Below 0 the bound is no token count any more, and the empty chunk
    emitted before the first paragraph is the one chunk outside the
    statement: every chunk made of at least one paragraph still
    satisfies it. *)
Lemma chunk_text_negative_bound (text : str) (max_tokens : Z) :
  chunk_groups (u "a") (-1) = [ []; [u "a"] ]
  /\ ~ chunk_bound_ok (-1) []
  /\ Forall (fun group => group <> [] -> chunk_bound_ok max_tokens group)
       (chunk_groups text max_tokens).
Proof.
  split; [vm_compute; reflexivity|]. split.
  - intros [Hle | [para [Heq _]]]; [|discriminate Heq].
    vm_compute in Hle. apply Hle. reflexivity.
  - pose proof (chunk_groups_inv text max_tokens) as Hinv.
    eapply List.Forall_impl; [|exact Hinv]. intros group Hg Hne.
    destruct Hg as [-> | [[para ->] | Hlt]]; [contradiction| |].
    + destruct (Z_le_gt_dec (word_count para) max_tokens) as [Hle | Hgt].
      * left. rewrite word_count_render.
        change [para] with ([] ++ [para]). rewrite word_count_buffer_snoc.
        vm_compute (word_count (buffer_of [])). lia.
      * right. exists para. split; [reflexivity|lia].
    + left. rewrite word_count_render. lia.
Qed.

(** ** Retrieval *)

Section RetrievalClaims.

Import settings.

Context {vector stream : Type}.

(** C7.  [search_vector_db] always returns a list and never raises.  The
    list is empty when the collection does not exist, when the query has
    zero matches, and when the [try] block raises (the client, the lookup
    of the collection or the similarity search throws); with a store that
    raises nothing of its own, it is the ranked hits, each normalized to
    its document and metadata. *)
Theorem search_vector_db_never_raises (w : world vector stream)
  (query_embedding : vector) (top_k : nat) (st : state vector) :
  exists st' l,
    search_vector_db w query_embedding top_k st = (st', Ok l)
    /\ store st' = store st
    /\ (store st !! COLLECTION_NAME = None -> l = [])
    /\ (forall items,
          store st !! COLLECTION_NAME = Some items ->
          take top_k (ranked w query_embedding items) = [] -> l = [])
    /\ (forall s e,
          search_body w query_embedding top_k st = (s, Raise e) -> l = [])
    /\ (forall items,
          reliable w ->
          store st !! COLLECTION_NAME = Some items ->
          l = List.map normalize
                (take top_k (ranked w query_embedding items))).
Proof.
  destruct (search_vector_db_total w query_embedding top_k st)
    as [st' [l Hrun]].
  exists st', l. split; [exact Hrun|].
  split; [apply (search_vector_db_frame w _ _ _ _ _ Hrun)|].
  repeat split.
  - intros Hnone.
    destruct (search_missing_empty w query_embedding top_k st Hnone)
      as [st2 H2].
    congruence.
  - intros items Hitems Hzero.
    destruct (search_zero_matches_empty w query_embedding top_k st items
                Hitems Hzero) as [st2 H2].
    congruence.
  - intros s e Hbody.
    pose proof (search_raise_empty w _ _ _ _ _ Hbody). congruence.
  - intros items Hrel Hitems.
    destruct (search_hits w query_embedding top_k st items Hrel Hitems)
      as [st2 H2].
    congruence.
Qed.

(** C9.  With a store that raises nothing of its own: clearing an existing
    collection deletes it and recreates it empty, whatever it held, after
    which its count is 0 and a query returns the empty list without
    raising; clearing when the collection does not exist changes no
    collection and returns the informational message. *)
Theorem clear_database_collection_resets (w : world vector stream)
  (st : state vector) :
  reliable w ->
  exists st' message,
    clear_database_collection w st = (st', Ok message)
    /\ match store st !! COLLECTION_NAME with
       | Some _ =>
           message = cleared_message
           /\ trace st' = trace st ++ [EvPersistentClient;
                                       EvGetCollection COLLECTION_NAME;
                                       EvDeleteCollection COLLECTION_NAME;
                                       EvCreateCollection COLLECTION_NAME]
           /\ store st' !! COLLECTION_NAME = Some []
           /\ snd (collection_count w COLLECTION_NAME st') = Ok 0%nat
           /\ forall q k, snd (search_vector_db w q k st') = Ok []
       | None =>
           message = nothing_to_clear_message
           /\ store st' = store st
       end.
Proof.
  intros Hrel.
  destruct (store st !! COLLECTION_NAME) as [items|] eqn:Hitems.
  - eexists _, _. split; [apply (clear_present w st items Hrel Hitems)|].
    split; [reflexivity|]. split; [reflexivity|].
    cbn [store]. split; [apply lookup_insert_eq|]. split.
    + rewrite collection_count_run, Hrel. cbn [store snd].
      rewrite lookup_insert_eq. reflexivity.
    + intros q k.
      edestruct (search_zero_matches_empty w q k) as [st2 ->];
        [cbn [store]; apply lookup_insert_eq| |reflexivity].
      destruct k; reflexivity.
  - eexists _, _. split; [apply (clear_absent w st Hrel Hitems)|].
    split; reflexivity.
Qed.

End RetrievalClaims.

(** Retrieval on a store with no collection, with a search that throws,
    and on a stocked store. *)
Lemma search_vector_db_never_raises_witness :
  snd (search_vector_db (demo_world []) (demo_embed (u "plans")) 5
         empty_state) = Ok []
  /\ snd (search_vector_db world_query_fails (demo_embed (u "plans")) 5
            stocked_state) = Ok []
  /\ List.map document
       (match snd (search_vector_db (demo_world [])
                     (demo_embed (u "Support is included?")) 5
                     stocked_state) with
        | Ok l => l
        | Raise _ => []
        end)
     = [u "Support is included"; u "Plans start at ten"].
Proof.
  split; [|split].
  - destruct (search_vector_db_never_raises (demo_world [])
                (demo_embed (u "plans")) 5 empty_state)
      as [st' [l [Hrun [_ [Hmissing _]]]]].
    rewrite Hrun. simpl. f_equal. apply Hmissing. reflexivity.
  - destruct (search_vector_db_never_raises world_query_fails
                (demo_embed (u "plans")) 5 stocked_state)
      as [st' [l [Hrun [_ [_ [_ [Hraise _]]]]]]].
    rewrite Hrun. simpl. f_equal.
    eapply Hraise. vm_compute. reflexivity.
  - destruct (search_vector_db_never_raises (demo_world [])
                (demo_embed (u "Support is included?")) 5 stocked_state)
      as [st' [l [Hrun [_ [_ [_ [_ Hhits]]]]]]].
    rewrite Hrun. simpl.
    rewrite (Hhits _ (fun _ => eq_refl) (lookup_insert_eq _ _ _)).
    vm_compute. reflexivity.
Defined.

(** Clearing a stocked store, and a store with no collection. *)
Lemma clear_database_collection_resets_witness :
  reliable (demo_world [])
  /\ (exists st',
        clear_database_collection (demo_world []) stocked_state
        = (st', Ok cleared_message)
        /\ store st' !! settings.COLLECTION_NAME = Some []
        /\ snd (collection_count (demo_world []) settings.COLLECTION_NAME st')
           = Ok 0%nat)
  /\ (exists st',
        clear_database_collection (demo_world []) empty_state
        = (st', Ok nothing_to_clear_message)).
Proof.
  split; [intros tr; reflexivity|]. split.
  - destruct (clear_database_collection_resets (demo_world []) stocked_state
                (fun _ => eq_refl)) as [st' [message [Hrun Hcase]]].
    unfold stocked_state in Hcase at 1. cbn [store] in Hcase.
    rewrite lookup_insert_eq in Hcase.
    destruct Hcase as [-> [_ [Hstore [Hcount _]]]].
    exists st'. auto.
  - destruct (clear_database_collection_resets (demo_world []) empty_state
                (fun _ => eq_refl)) as [st' [message [Hrun Hcase]]].
    unfold empty_state in Hcase at 1. cbn [store] in Hcase.
    rewrite lookup_empty in Hcase.
    destruct Hcase as [-> _]. exists st'. exact Hrun.
Defined.

(** ** The query path *)

Section AnswerClaims.

Import settings.

Context {vector stream : Type}.

(** C5.  When the query is embedded and retrieval returns the empty list,
    [get_rag_response_stream] returns no stream together with the fixed
    message, and the trace has no call to the generation service that was
    not there before. *)
Theorem no_grounding_short_circuit (w : world vector stream) (query : str)
  (st st1 st2 : state vector) (query_embedding : vector) :
  embeddings w EMBEDDING_MODEL query st = (st1, Ok query_embedding) ->
  search_vector_db w query_embedding 5 st1 = (st2, Ok []) ->
  get_rag_response_stream w query st = (st2, Ok (None, error_message))
  /\ chat_calls (trace st2) = chat_calls (trace st).
Proof.
  intros Hembed Hsearch. split.
  - unfold get_rag_response_stream.
    rewrite bind_run, Hembed, bind_run, Hsearch. reflexivity.
  - destruct (search_vector_db_frame w _ _ _ _ _ Hsearch)
      as [_ [evs [Htrace Hevs]]].
    rewrite embeddings_run in Hembed. inversion Hembed; subst st1.
    rewrite Htrace. unfold chat_calls. cbn [trace logged].
    rewrite !List.filter_app. simpl. rewrite app_nil_r.
    assert (Hnil : List.filter is_chat evs = []).
    { clear -Hevs. induction evs as [|ev evs IH]; [reflexivity|].
      simpl in *. apply andb_prop in Hevs as [Hev Hevs].
      destruct (is_chat ev); [discriminate|]. apply IH, Hevs. }
    rewrite Hnil, app_nil_r. reflexivity.
Qed.

(** C4, amended.  An exception of the embedding call is not caught: it
    leaves [get_rag_response_stream].  Once the query is embedded, a
    missing collection, zero matches and an exception raised in the
    retrieval search all end in the sentinel: no stream, the fixed
    message, no exception. *)
Theorem retrieval_errors_become_sentinel (w : world vector stream)
  (query : str) (st : state vector) :
  match embeddings w EMBEDDING_MODEL query st with
  | (st1, Raise e) => get_rag_response_stream w query st = (st1, Raise e)
  | (st1, Ok query_embedding) =>
      store st1 !! COLLECTION_NAME = None
      \/ (exists items,
            store st1 !! COLLECTION_NAME = Some items
            /\ take 5 (ranked w query_embedding items) = [])
      \/ (exists s e, search_body w query_embedding 5 st1 = (s, Raise e)) ->
      exists st2,
        get_rag_response_stream w query st = (st2, Ok (None, error_message))
  end.
Proof.
  destruct (embeddings w EMBEDDING_MODEL query st) as [st1 [v|e]] eqn:Hembed.
  - intros Hcase.
    assert (Hsearch : exists st2, search_vector_db w v 5 st1 = (st2, Ok [])).
    { destruct Hcase as [Hnone | [[items [Hitems Hzero]] | [s [e Hbody]]]].
      - apply search_missing_empty, Hnone.
      - apply (search_zero_matches_empty w v 5 st1 items Hitems Hzero).
      - exists s. apply (search_raise_empty w _ _ _ _ _ Hbody). }
    destruct Hsearch as [st2 Hsearch]. exists st2.
    unfold get_rag_response_stream.
    rewrite bind_run, Hembed, bind_run, Hsearch. reflexivity.
  - unfold get_rag_response_stream. rewrite bind_run, Hembed. reflexivity.
Qed.

End AnswerClaims.

(** A query against a store with no collection: three calls, none to the
    generation service. *)
Lemma no_grounding_short_circuit_witness :
  get_rag_response_stream (demo_world []) (u "What does it cost?")
    empty_state
  = (State [EvEmbeddings settings.EMBEDDING_MODEL (u "What does it cost?");
            EvPersistentClient;
            EvGetCollection settings.COLLECTION_NAME] ∅ 0,
     Ok (None, error_message)).
Proof.
  apply (no_grounding_short_circuit (demo_world []) (u "What does it cost?")
           empty_state
           (State [EvEmbeddings settings.EMBEDDING_MODEL
                     (u "What does it cost?")] ∅ 0)
           _ (demo_embed (u "What does it cost?"))).
  - reflexivity.
  - vm_compute. reflexivity.
Defined.

(** A search that throws ends in the sentinel; an unreachable embedding
    service ends in its exception. *)
Lemma retrieval_errors_become_sentinel_witness :
  (exists st2,
     get_rag_response_stream world_query_fails (u "What does it cost?")
       stocked_state = (st2, Ok (None, error_message)))
  /\ snd (get_rag_response_stream world_embed_down (u "What does it cost?")
            stocked_state) = Raise ollama_down.
Proof.
  split.
  - apply (retrieval_errors_become_sentinel world_query_fails
             (u "What does it cost?") stocked_state).
    right; right. eexists _, _. vm_compute. reflexivity.
  - rewrite (retrieval_errors_become_sentinel world_embed_down
               (u "What does it cost?") stocked_state).
    reflexivity.
Defined.

(** C4 as stated fails: with the embedding service unreachable the
    exception leaves the query path. *)
Lemma embedding_failure_escapes :
  snd (get_rag_response_stream world_embed_down (u "What does it cost?")
         empty_state) = Raise ollama_down
  /\ ~ (forall (w : world (list Z) (list str)) query st,
          exists st' answer,
            get_rag_response_stream w query st = (st', Ok answer)).
Proof.
  assert (H : snd (get_rag_response_stream world_embed_down
                     (u "What does it cost?") empty_state)
              = Raise ollama_down) by (vm_compute; reflexivity).
  split; [exact H|].
  intros Hall.
  destruct (Hall world_embed_down (u "What does it cost?") empty_state)
    as [st' [answer Hrun]].
  rewrite Hrun in H. discriminate H.
Qed.

(** ** Citations *)



(** ** Ingestion *)

Section IngestClaims.

Import settings.

Context {vector stream : Type}.

(** C8.  The empty text yields no chunk; every text whose paragraphs are
    all blank, whatever its length, yields no chunk at the configured
    bound and at any positive bound; and for every file whose text yields
    no chunk, the loop body leaves the state and the summary as they
    were: no embedding call, no index write, no summary entry. *)
Theorem zero_chunks_file_skipped :
  chunk_text [] CHUNK_SIZE_TOKENS = []
  /\ (forall (blank_text : str) (max_tokens : Z),
        (0 < max_tokens)%Z ->
        Forall (fun p => blank p = true) (split_on nl blank_text) ->
        chunk_text blank_text max_tokens = []
        /\ chunk_text blank_text CHUNK_SIZE_TOKENS = [])
  /\ (forall (w : world vector stream)
             (collection root file html title text : str)
             (summary : list str) (st : state vector),
        is_html_name file = true ->
        open_read w (path_join root file) = Ok html ->
        clean_html (html_parser w) html = Ok (title, text) ->
        chunk_text text CHUNK_SIZE_TOKENS = [] ->
        exists st',
          ingest_file w collection root summary file st = (st', Ok summary)
          /\ embedding_calls (trace st') = embedding_calls (trace st)
          /\ index_writes (trace st') = index_writes (trace st)
          /\ store st' = store st).
Proof.
  split; [reflexivity|]. split.
  - intros blank_text max_tokens Hpos Hblank.
    split; apply chunk_text_blank; try assumption. reflexivity.
  - intros w collection root file html title text summary st
      Hname Hread Hclean Hchunks.
    exists st. split; [|auto].
    apply (ingest_file_no_chunks w _ _ _ _ _ html title text); assumption.
Qed.

(** C10.  When the parsed document has a title element with no string
    (as for an empty title element), [clean_html] raises instead of
    returning a title, and the loop body records the file as a failure
    without embedding or indexing anything; the default title is what a
    document with no title element gets. *)
Theorem empty_title_raises (w : world vector stream)
  (collection root file html : str) (title_tag : node) (summary : list str)
  (st : state vector) :
  is_html_name file = true ->
  open_read w (path_join root file) = Ok html ->
  soup_title (flat_map decompose_scripts (html_parser w html))
  = Some title_tag ->
  node_string title_tag = None ->
  clean_html (html_parser w) html = Raise none_has_no_strip
  /\ ingest_file w collection root summary file st
     = (st, Ok (summary
                ++ [failure_line (path_join root file) none_has_no_strip]))
  /\ (forall other,
        soup_title (flat_map decompose_scripts (html_parser w other)) = None ->
        exists text,
          clean_html (html_parser w) other = Ok (u "Untitled Document", text)).
Proof.
  intros Hname Hread Htitle Hstring.
  assert (Hclean : clean_html (html_parser w) html = Raise none_has_no_strip).
  { unfold clean_html, clean_soup. rewrite Htitle, Hstring. reflexivity. }
  split; [exact Hclean|]. split.
  - apply (ingest_file_catches w _ _ _ _ _ html); [assumption..|].
    apply process_html_clean_raises, Hclean.
  - intros other Hnone. unfold clean_html, clean_soup. rewrite Hnone. eauto.
Qed.

End IngestClaims.

(** A text of three blank paragraphs (empty, spaces, a tab), and a file
    whose only text is a space. *)
Lemma zero_chunks_file_skipped_witness :
  split_on nl ([nl] ++ u "   " ++ [nl; 9]) = [[]; u "   "; [9]]
  /\ chunk_text ([nl] ++ u "   " ++ [nl; 9]) 1 = []
  /\ chunk_text ([nl] ++ u "   " ++ [nl; 9]) settings.CHUNK_SIZE_TOKENS = []
  /\ clean_html demo_parser blank_html = Ok (u "Untitled Document", [])
  /\ chunk_text [] settings.CHUNK_SIZE_TOKENS = []
  /\ exists st',
       ingest_file (demo_world [u "blank.html"]) settings.COLLECTION_NAME
         (u "docs") [u "earlier line"] (u "blank.html") stocked_state
       = (st', Ok [u "earlier line"])
       /\ embedding_calls (trace st') = embedding_calls (trace stocked_state)
       /\ index_writes (trace st') = index_writes (trace stocked_state)
       /\ store st' = store stocked_state.
Proof.
  destruct (@zero_chunks_file_skipped (list Z) (list str))
    as [Hempty [Hblank Hskip]].
  split; [vm_compute; reflexivity|].
  destruct (Hblank ([nl] ++ u "   " ++ [nl; 9]) 1%Z) as [Hone Hconf];
    [lia|vm_compute; repeat constructor|].
  split; [exact Hone|]. split; [exact Hconf|].
  split; [vm_compute; reflexivity|].
  split; [exact Hempty|].
  apply (Hskip (demo_world [u "blank.html"]) settings.COLLECTION_NAME
           (u "docs") (u "blank.html") blank_html (u "Untitled Document") []
           [u "earlier line"] stocked_state);
    try (vm_compute; reflexivity).
Defined.

(** A file made of an empty title element. *)
Lemma empty_title_raises_witness :
  clean_html demo_parser untitled_html = Raise none_has_no_strip
  /\ ingest_file (demo_world [u "untitled.html"]) settings.COLLECTION_NAME
       (u "docs") [] (u "untitled.html") empty_state
     = (empty_state,
        Ok [failure_line (u "docs/untitled.html") none_has_no_strip]).
Proof.
  destruct (empty_title_raises (demo_world [u "untitled.html"])
              settings.COLLECTION_NAME (u "docs") (u "untitled.html")
              untitled_html (Tag (u "title") []) [] empty_state)
    as [Hclean [Hrun _]]; try (vm_compute; reflexivity).
  split; [exact Hclean|exact Hrun].
Defined.

(** C3.  A failure in any step of one file is to be caught per file.  The
    read is made before the [try]: when opening a listed file fails, the
    exception leaves [ingest_directory], no summary is returned and the
    files after it are not processed; a failure inside the [try] (here an
    empty title element) is caught and the walk goes on. *)
Theorem ingest_directory_read_failure_aborts :
  snd (ingest_directory (demo_world [u "locked.html"; u "pricing.html"])
         (u "docs") empty_state)
  = Raise permission_denied
  /\ trace (fst (ingest_directory
                   (demo_world [u "locked.html"; u "pricing.html"])
                   (u "docs") empty_state))
     = [EvPersistentClient; EvGetOrCreateCollection settings.COLLECTION_NAME]
  /\ snd (ingest_directory (demo_world [u "untitled.html"; u "pricing.html"])
            (u "docs") empty_state)
     = Ok (failure_line (u "docs/untitled.html") none_has_no_strip
           ++ [nl] ++ success_line (u "pricing.html") 1).
Proof. repeat split; vm_compute; reflexivity. Qed.

(** * Further properties of the code *)

(** ** Chunker: tokens, trimming, small and blank texts *)

Module ChunkerMoreFacts.

Lemma split_on_not_nil sep s : split_on sep s <> [].
Proof.
  destruct s as [|c s]; simpl; [discriminate|].
  destruct (c =? sep); [discriminate|].
  destruct (split_on sep s); discriminate.
Qed.

(** Splitting on a separator and joining with it gives the text back. *)
Lemma join_split_on sep s : join [sep] (split_on sep s) = s.
Proof.
  induction s as [|c s IH]; simpl; [reflexivity|].
  destruct (c =? sep) eqn:Hc.
  - apply N.eqb_eq in Hc. subst c.
    pose proof (split_on_not_nil sep s) as Hne.
    destruct (split_on sep s) as [|p ps]; [contradiction|].
    simpl. f_equal. exact IH.
  - pose proof (split_on_not_nil sep s) as Hne.
    destruct (split_on sep s) as [|p ps]; [contradiction|].
    simpl in *. destruct ps; simpl; f_equal; exact IH.
Qed.

Lemma split_ws_join_nl parts :
  split_ws (join [nl] parts) = concat (List.map split_ws parts).
Proof.
  induction parts as [|p ps IH]; simpl; [reflexivity|].
  destruct ps as [|q ps].
  - simpl. rewrite app_nil_r. reflexivity.
  - change (p ++ [nl] ++ join [nl] (q :: ps))
      with (p ++ nl :: join [nl] (q :: ps)).
    rewrite split_ws_cut by apply isspace_nl. rewrite IH. reflexivity.
Qed.

Lemma split_ws_paragraphs text :
  split_ws text = concat (List.map split_ws (split_on nl text)).
Proof.
  rewrite <- split_ws_join_nl, join_split_on. reflexivity.
Qed.

Lemma split_ws_buffer_of group :
  split_ws (buffer_of group) = concat (List.map split_ws group).
Proof.
  induction group as [|p group IH]; [reflexivity|].
  change (buffer_of (p :: group)) with ((p ++ [nl]) ++ buffer_of group).
  rewrite <- app_assoc. change ([nl] ++ buffer_of group)
    with (nl :: buffer_of group).
  rewrite split_ws_cut by apply isspace_nl. simpl. rewrite IH. reflexivity.
Qed.

Lemma split_ws_strip s : split_ws (strip s) = split_ws s.
Proof. unfold strip. rewrite split_ws_rstrip, split_ws_lstrip. reflexivity. Qed.

Lemma split_ws_render group :
  split_ws (render group) = concat (List.map split_ws group).
Proof. unfold render. rewrite split_ws_strip. apply split_ws_buffer_of. Qed.

Lemma concat_map_concat {A B} (f : A -> list B) (ls : list (list A)) :
  concat (List.map (fun l => concat (List.map f l)) ls)
  = concat (List.map f (concat ls)).
Proof.
  induction ls as [|l ls IH]; simpl; [reflexivity|].
  rewrite map_app, concat_app, IH. reflexivity.
Qed.

Lemma blank_no_tokens rest :
  Forall (fun p => blank p = true) rest ->
  concat (List.map split_ws rest) = [].
Proof.
  induction 1 as [|p rest Hp _ IH]; simpl; [reflexivity|].
  rewrite IH, app_nil_r. unfold blank in Hp.
  destruct (split_ws p); [reflexivity|discriminate].
Qed.

Lemma chunk_text_tokens text mt :
  concat (List.map split_ws (chunk_text text mt)) = split_ws text.
Proof.
  rewrite chunk_text_groups, map_map.
  rewrite (map_ext _ (fun g => concat (List.map split_ws g)))
    by apply split_ws_render.
  rewrite concat_map_concat, split_ws_paragraphs.
  destruct (chunk_groups_cover text mt) as [rest [-> Hrest]].
  rewrite map_app, concat_app, (blank_no_tokens rest Hrest), app_nil_r.
  reflexivity.
Qed.

(** *** Trimming is idempotent *)

Lemma lstrip_fixed s :
  match s with [] => True | c :: _ => isspace c = false end -> lstrip s = s.
Proof. destruct s as [|c s]; simpl; [reflexivity|]. intros ->. reflexivity. Qed.

Lemma lstrip_head s :
  match lstrip s with [] => True | c :: _ => isspace c = false end.
Proof.
  induction s as [|c s IH]; simpl; [exact I|].
  destruct (isspace c) eqn:Hc; [exact IH|exact Hc].
Qed.

Lemma lstrip_idem s : lstrip (lstrip s) = lstrip s.
Proof. apply lstrip_fixed, lstrip_head. Qed.

Lemma rstrip_idem s : rstrip (rstrip s) = rstrip s.
Proof.
  unfold rstrip. rewrite rev_involutive, lstrip_idem. reflexivity.
Qed.

Lemma rstrip_prefix s :
  exists sp, s = rstrip s ++ sp /\ forallb isspace sp = true.
Proof.
  unfold rstrip. destruct (lstrip_split (rev s)) as [sp [Hs Hsp]].
  exists (rev sp). split.
  - rewrite <- rev_app_distr, <- Hs, rev_involutive. reflexivity.
  - rewrite forallb_rev. exact Hsp.
Qed.

Lemma truthy_rstrip s : truthy (rstrip s) = has_word s.
Proof.
  unfold rstrip. rewrite truthy_rev, truthy_lstrip, has_word_rev.
  reflexivity.
Qed.

(** Trimming the right end keeps a left end that was already trimmed. *)
Lemma lstrip_rstrip_fixed s : lstrip s = s -> lstrip (rstrip s) = rstrip s.
Proof.
  intros Hs. apply lstrip_fixed.
  destruct (rstrip_prefix s) as [sp [Heq _]].
  destruct (rstrip s) as [|c r] eqn:Hr; [exact I|].
  rewrite Heq in Hs. simpl in Hs.
  destruct (isspace c) eqn:Hc; [|reflexivity].
  exfalso.
  assert (Hlen : (length (lstrip (r ++ sp)) <= length (r ++ sp))%nat).
  { clear. induction (r ++ sp) as [|x l IH]; simpl; [lia|].
    destruct (isspace x); simpl; lia. }
  rewrite Hs in Hlen. simpl in Hlen. lia.
Qed.

Lemma strip_idem s : strip (strip s) = strip s.
Proof.
  unfold strip at 1.
  assert (Hl : lstrip (strip s) = strip s).
  { unfold strip. apply lstrip_rstrip_fixed, lstrip_idem. }
  rewrite Hl. unfold strip. apply rstrip_idem.
Qed.

Lemma render_trimmed group : trimmed (render group).
Proof. apply strip_idem. Qed.

(** *** A text below the bound *)

Lemma word_count_buffer_app a b :
  word_count (buffer_of (a ++ b))
  = (word_count (buffer_of a) + word_count (buffer_of b))%Z.
Proof.
  unfold word_count. rewrite !split_ws_buffer_of, map_app, concat_app.
  rewrite length_app. lia.
Qed.

Lemma word_count_buffer_one para :
  word_count (buffer_of [para]) = word_count para.
Proof.
  unfold word_count. rewrite split_ws_buffer_of. simpl.
  rewrite app_nil_r. reflexivity.
Qed.

(** Paragraphs that fit together below the bound all go to the buffer. *)
Lemma fold_fits mt paras group :
  (word_count (buffer_of (group ++ paras)) < mt)%Z ->
  fold_left (chunk_step mt) paras ([], buffer_of group)
  = ([], buffer_of (group ++ paras)).
Proof.
  revert group. induction paras as [|para paras IH]; intros group Hfit.
  - rewrite app_nil_r. reflexivity.
  - simpl.
    assert (Hlt : (word_count (buffer_of group) + word_count para <? mt)%Z
                  = true).
    { apply Z.ltb_lt.
      change (para :: paras) with ([para] ++ paras) in Hfit.
      rewrite !word_count_buffer_app, word_count_buffer_one in Hfit.
      pose proof (word_count_nonneg (buffer_of paras)). lia. }
    rewrite Hlt, <- buffer_of_snoc.
    rewrite IH; rewrite <- app_assoc; [reflexivity|exact Hfit].
Qed.

Lemma buffer_of_join parts :
  parts <> [] -> buffer_of parts = join [nl] parts ++ [nl].
Proof.
  induction parts as [|p ps IH]; [contradiction|]. intros _.
  change (buffer_of (p :: ps)) with ((p ++ [nl]) ++ buffer_of ps).
  destruct ps as [|q ps].
  - simpl. rewrite app_nil_r. reflexivity.
  - rewrite IH by discriminate.
    change (join [nl] (p :: q :: ps)) with (p ++ [nl] ++ join [nl] (q :: ps)).
    rewrite <- !app_assoc. reflexivity.
Qed.

Lemma buffer_of_paragraphs text : buffer_of (split_on nl text) = text ++ [nl].
Proof.
  rewrite buffer_of_join by apply split_on_not_nil.
  rewrite join_split_on. reflexivity.
Qed.

Lemma lstrip_app_word s t : has_word s = true -> lstrip (s ++ t) = lstrip s ++ t.
Proof.
  induction s as [|c s IH]; simpl; [discriminate|].
  destruct (isspace c); simpl; [exact IH|reflexivity].
Qed.

Lemma rstrip_snoc_space s c : isspace c = true -> rstrip (s ++ [c]) = rstrip s.
Proof.
  intros Hc. unfold rstrip. rewrite rev_app_distr. simpl. rewrite Hc.
  reflexivity.
Qed.

Lemma strip_snoc_space s c :
  isspace c = true -> has_word s = true -> strip (s ++ [c]) = strip s.
Proof.
  intros Hc Hs. unfold strip.
  rewrite lstrip_app_word by exact Hs. apply rstrip_snoc_space, Hc.
Qed.

Lemma has_word_snoc_space s c :
  isspace c = true -> has_word (s ++ [c]) = has_word s.
Proof.
  intros Hc. unfold has_word. rewrite existsb_app. simpl. rewrite Hc.
  simpl. rewrite !orb_false_r. reflexivity.
Qed.

End ChunkerMoreFacts.
Import ChunkerMoreFacts.

(** ** [clean_html]: what reaches the text *)

Module HtmlFacts.

Lemma starts_tight_lstrip s : starts_tight s -> lstrip s = s.
Proof. intros [c [r [-> Hc]]]. simpl. rewrite Hc. reflexivity. Qed.

Lemma lstrip_starts_tight s : s <> [] -> lstrip s = s -> starts_tight s.
Proof.
  intros Hne Hs. pose proof (lstrip_head s) as Hh. rewrite Hs in Hh.
  destruct s as [|c r]; [contradiction|]. exists c, r. auto.
Qed.

Lemma tight_trimmed s : tight s -> trimmed s.
Proof.
  intros [Hl Hr]. unfold trimmed, strip, rstrip.
  rewrite (starts_tight_lstrip s Hl), (starts_tight_lstrip (rev s) Hr).
  apply rev_involutive.
Qed.

Lemma strip_tight s : truthy (strip s) = true -> tight (strip s).
Proof.
  intros Ht.
  assert (Hne : strip s <> []) by (destruct (strip s); [discriminate|discriminate]).
  split.
  - apply lstrip_starts_tight; [exact Hne|].
    unfold strip. apply lstrip_rstrip_fixed, lstrip_idem.
  - apply lstrip_starts_tight.
    + intros H. apply Hne. rewrite <- (rev_involutive (strip s)), H.
      reflexivity.
    + unfold strip at 1 2, rstrip. rewrite !rev_involutive.
      apply lstrip_idem.
Qed.

Lemma starts_tight_app s t : starts_tight s -> starts_tight (s ++ t).
Proof. intros [c [r [-> Hc]]]. exists c, (r ++ t). auto. Qed.

Lemma join_tight parts :
  parts <> [] -> Forall tight parts -> tight (join [nl] parts).
Proof.
  induction parts as [|p ps IH]; [contradiction|].
  intros _ Hall. inversion Hall as [|? ? Hp Hps]; subst.
  destruct ps as [|q ps]; [exact Hp|].
  change (join [nl] (p :: q :: ps)) with (p ++ [nl] ++ join [nl] (q :: ps)).
  destruct (IH ltac:(discriminate) Hps) as [_ Hrev].
  split.
  - apply starts_tight_app, Hp.
  - rewrite !rev_app_distr, <- app_assoc. apply starts_tight_app, Hrev.
Qed.

Lemma join_trimmed strings :
  trimmed (join [nl] (List.filter truthy (List.map strip strings))).
Proof.
  destruct (List.filter truthy (List.map strip strings)) as [|p ps] eqn:Hf.
  - reflexivity.
  - rewrite <- Hf. apply tight_trimmed, join_tight.
    + rewrite Hf. discriminate.
    + apply List.Forall_forall. intros e He.
      apply filter_In in He as [Hin Ht].
      apply in_map_iff in Hin as [s [<- _]].
      apply strip_tight, Ht.
Qed.

(** The strings left after removing the script and style elements are
    the visible strings of the tree. *)
Lemma all_strings_decompose (n : node) :
  flat_map all_strings (decompose_scripts n) = visible_strings n.
Proof.
  revert n. fix rec 1. intros n.
  destruct n as [s|name contents|cls s]; simpl.
  - reflexivity.
  - destruct (is_script_or_style name); [reflexivity|].
    simpl. rewrite app_nil_r.
    induction contents as [|c cs IH]; simpl; [reflexivity|].
    rewrite flat_map_app, rec, IH. reflexivity.
  - destruct cls; reflexivity.
Qed.

Lemma all_strings_decompose_soup soup :
  flat_map all_strings (flat_map decompose_scripts soup)
  = flat_map visible_strings soup.
Proof.
  induction soup as [|n soup IH]; simpl; [reflexivity|].
  rewrite flat_map_app, all_strings_decompose, IH. reflexivity.
Qed.

Lemma clean_soup_text parsed title text :
  clean_soup parsed = Ok (title, text) ->
  text = get_text (flat_map decompose_scripts parsed).
Proof.
  unfold clean_soup.
  destruct (soup_title _) as [t|]; [destruct (node_string t)|];
    intros H; inversion H; reflexivity.
Qed.

Lemma clean_soup_title parsed title text :
  clean_soup parsed = Ok (title, text) ->
  title = u "Untitled Document" \/ exists s, title = strip s.
Proof.
  unfold clean_soup.
  destruct (soup_title _) as [t|]; [destruct (node_string t) as [s|]|];
    intros H; inversion H; eauto.
Qed.

End HtmlFacts.
Import HtmlFacts.

(** ** Ingestion: what one file does to the trace and the store *)

Module IngestMoreFacts.

Import settings.

Section WithWorld.

Context {vector stream : Type} (w : world vector stream).

Lemma collection_add_run name (new_items : list (item vector)) st :
  collection_add w name new_items st
  = let ev := EvAdd name (List.map item_document new_items) in
    match chroma_fault w (trace st ++ [ev]) with
    | Some e => (logged ev st, Raise e)
    | None =>
        match store st !! name with
        | Some items =>
            (State (trace st ++ [ev])
                   (<[name := items ++ new_items]> (store st))
                   (uuids_drawn st), Ok tt)
        | None => (logged ev st, Raise (no_such_collection name))
        end
    end.
Proof.
  unfold collection_add. rewrite chroma_call_run. cbv zeta.
  destruct (chroma_fault w _); [reflexivity|].
  unfold bind, get_store. simpl.
  destruct (store st !! name); reflexivity.
Qed.

Lemma get_or_create_collection_run name st :
  get_or_create_collection w name st
  = let ev := EvGetOrCreateCollection name in
    match chroma_fault w (trace st ++ [ev]) with
    | Some e => (logged ev st, Raise e)
    | None =>
        match store st !! name with
        | Some _ => (logged ev st, Ok name)
        | None =>
            (State (trace st ++ [ev]) (<[name := []]> (store st))
                   (uuids_drawn st), Ok name)
        end
    end.
Proof.
  unfold get_or_create_collection. rewrite chroma_call_run. cbv zeta.
  destruct (chroma_fault w _); [reflexivity|].
  unfold bind, get_store. simpl.
  destruct (store st !! name); reflexivity.
Qed.

(** Embedding the chunks touches neither the store nor the identifiers;
    it logs one call per chunk reached, in order. *)
Lemma mapM_embeddings_frame chunks st st' r :
  mapM (fun chunk => embeddings w EMBEDDING_MODEL chunk) chunks st
  = (st', r) ->
  store st' = store st /\ uuids_drawn st' = uuids_drawn st
  /\ exists done,
       trace st' = trace st ++ List.map (EvEmbeddings EMBEDDING_MODEL) done
       /\ match r with
          | Ok vectors => done = chunks /\ length vectors = length chunks
          | Raise _ => exists rest, chunks = done ++ rest /\ done <> []
          end.
Proof.
  revert st st' r. induction chunks as [|chunk chunks IH]; intros st st' r.
  - simpl. unfold ret. intros H. inversion H; subst.
    repeat split. exists []. rewrite app_nil_r. auto.
  - simpl. rewrite bind_run, embeddings_run.
    destruct (ollama_embeddings w _ _ _) as [v|e].
    + rewrite bind_run.
      destruct (mapM _ chunks (logged _ st)) as [st1 [vs|e]] eqn:Hrest;
        intros H; inversion H; subst;
        destruct (IH _ _ _ Hrest) as [Hs [Hu [done [Ht Hr]]]];
        (split; [exact Hs|]); (split; [exact Hu|]);
        exists (chunk :: done); simpl in *; rewrite Ht, <- app_assoc;
        (split; [reflexivity|]).
      * destruct Hr as [-> Hlen]. simpl. auto.
      * destruct Hr as [rest [-> _]]. exists rest. split; [reflexivity|].
        discriminate.
    + intros H. inversion H; subst. repeat split.
      exists [chunk]. split; [reflexivity|].
      exists chunks. split; [reflexivity|discriminate].
Qed.

Lemma mapM_embeddings_ok chunks st :
  (forall tr prompt,
     exists v, ollama_embeddings w tr EMBEDDING_MODEL prompt = Ok v) ->
  exists vectors,
    mapM (fun chunk => embeddings w EMBEDDING_MODEL chunk) chunks st
    = (State (trace st ++ List.map (EvEmbeddings EMBEDDING_MODEL) chunks)
             (store st) (uuids_drawn st), Ok vectors)
    /\ length vectors = length chunks.
Proof.
  intros Hok. revert st. induction chunks as [|chunk chunks IH]; intros st.
  - exists []. simpl. rewrite app_nil_r. destruct st. auto.
  - simpl. rewrite bind_run, embeddings_run.
    destruct (Hok (trace st ++ [EvEmbeddings EMBEDDING_MODEL chunk]) chunk)
      as [v ->].
    destruct (IH (logged (EvEmbeddings EMBEDDING_MODEL chunk) st))
      as [vs [Hrun Hlen]].
    exists (v :: vs). rewrite bind_run, Hrun. simpl.
    rewrite <- app_assoc. simpl. auto.
Qed.

Lemma mapM_fresh_uuid {A} (chunks : list A) st :
  mapM (fun _ => fresh_uuid w) chunks st
  = (State (trace st) (store st) (uuids_drawn st + length chunks),
     Ok (List.map (uuid4 w) (seq (uuids_drawn st) (length chunks)))).
Proof.
  revert st. induction chunks as [|chunk chunks IH]; intros st.
  - simpl. rewrite Nat.add_0_r. destruct st. reflexivity.
  - simpl. rewrite bind_run. unfold fresh_uuid at 1.
    rewrite bind_run, IH. simpl.
    rewrite Nat.add_succ_r. reflexivity.
Qed.

Lemma make_items_documents ids (vectors : list vector) chunks meta :
  length ids = length chunks -> length vectors = length chunks ->
  List.map item_document (make_items ids vectors chunks meta) = chunks
  /\ List.map item_id (make_items ids vectors chunks meta) = ids
  /\ Forall (fun it => item_metadata it = meta)
       (make_items ids vectors chunks meta).
Proof.
  revert ids vectors.
  induction chunks as [|c chunks IH]; intros [|i ids] [|v vs];
    simpl; try discriminate; intros Hi Hv.
  - repeat split; constructor.
  - destruct (IH ids vs) as [Hd [Hid Hm]]; [lia..|].
    rewrite Hd, Hid. repeat split. constructor; [reflexivity|exact Hm].
Qed.

Lemma process_html_all_or_nothing collection file file_path html st st' r :
  process_html w collection file file_path html st = (st', r) ->
  (store st' = store st /\ (r = Ok None \/ exists e, r = Raise e))
  \/ indexed_whole w collection file file_path html st st' r.
Proof.
  unfold process_html. rewrite bind_run. unfold lift.
  destruct (clean_html (html_parser w) html) as [[title text]|e] eqn:Hclean.
  2:{ intros H. inversion H; subst. left. eauto. }
  destruct (chunk_text text CHUNK_SIZE_TOKENS) as [|c cs] eqn:Hchunks.
  { simpl. unfold ret. intros H. inversion H; subst. left. eauto. }
  cbn [truthy negb]. rewrite bind_run.
  destruct (mapM _ (c :: cs) st) as [st1 [vs|e]] eqn:Hembed.
  2:{ intros H. inversion H; subst.
      destruct (mapM_embeddings_frame _ _ _ _ Hembed) as [Hs _].
      left. eauto. }
  destruct (mapM_embeddings_frame _ _ _ _ Hembed) as [Hs [_ [done [_ [_ Hlen]]]]].
  rewrite bind_run, mapM_fresh_uuid, bind_run, collection_add_run. cbv zeta.
  cbn [trace store uuids_drawn].
  destruct (chroma_fault w _).
  { intros H. inversion H; subst. left. cbn [store logged]. eauto. }
  rewrite Hs.
  destruct (store st !! collection) as [old|] eqn:Hold.
  2:{ intros H. inversion H; subst. left. cbn [store logged]. eauto. }
  unfold ret. intros H. inversion H; subst. right.
  destruct (make_items_documents
              (List.map (uuid4 w) (seq (uuids_drawn st1) (length (c :: cs))))
              vs (c :: cs) (chunk_metadata title file_path))
    as [Hd [_ Hm]]; [rewrite length_map, length_seq; reflexivity|exact Hlen|].
  exists title, text, old,
    (make_items
       (List.map (uuid4 w) (seq (uuids_drawn st1) (length (c :: cs))))
       vs (c :: cs) (chunk_metadata title file_path)).
  rewrite Hchunks. cbn [store]. auto 10.
Qed.

End WithWorld.

End IngestMoreFacts.
Import IngestMoreFacts.

(** ** Ingestion: the walk *)

Module WalkFacts.

Import settings.

Section WithWorld.

Context {vector stream : Type} (w : world vector stream).

Lemma foldM_skip {A B} (f : B -> A -> M vector B) (l : list A) b st :
  Forall (fun x => forall b st, f b x st = (st, Ok b)) l ->
  foldM f l b st = (st, Ok b).
Proof.
  induction 1 as [|x l Hx _ IH]; simpl; [reflexivity|].
  rewrite bind_run, Hx. exact IH.
Qed.

Lemma walk_skips collection entries summary st :
  Forall (fun entry => Forall (fun file => is_html_name file = false)
                         (snd entry)) entries ->
  foldM (fun summary '(root, files) =>
           foldM (ingest_file w collection root) files summary)
    entries summary st
  = (st, Ok summary).
Proof.
  intros Hnone. apply foldM_skip.
  eapply List.Forall_impl; [|exact Hnone]. intros [root files] Hfiles b st0.
  apply foldM_skip. eapply List.Forall_impl; [|exact Hfiles].
  intros file Hfile b0 st1. apply ingest_file_not_html, Hfile.
Qed.

(** [ingest_directory] after its two opening store calls. *)
Lemma ingest_directory_run folder_path st :
  ingest_directory w folder_path st
  = let st1 := logged EvPersistentClient st in
    let ev := EvGetOrCreateCollection COLLECTION_NAME in
    match chroma_fault w (trace st1) with
    | Some e => (st1, Raise e)
    | None =>
        match chroma_fault w (trace st1 ++ [ev]) with
        | Some e => (logged ev st1, Raise e)
        | None =>
            let st2 :=
              match store st !! COLLECTION_NAME with
              | Some _ => logged ev st1
              | None =>
                  State (trace st1 ++ [ev])
                        (<[COLLECTION_NAME := []]> (store st))
                        (uuids_drawn st)
              end in
            match
              foldM (fun summary '(root, files) =>
                       foldM (ingest_file w COLLECTION_NAME root) files
                         summary)
                (os_walk w folder_path) [] st2
            with
            | (st', Ok summary) => (st', Ok (join [nl] summary))
            | (st', Raise e) => (st', Raise e)
            end
        end
    end.
Proof.
  unfold ingest_directory. cbv zeta.
  rewrite bind_run, PersistentClient_run.
  change (trace st ++ [EvPersistentClient])
    with (trace (logged EvPersistentClient st)).
  destruct (chroma_fault w (trace (logged EvPersistentClient st)));
    [reflexivity|].
  rewrite bind_run, get_or_create_collection_run. cbv zeta.
  destruct (chroma_fault w _); [reflexivity|].
  cbn [store logged trace uuids_drawn].
  destruct (store st !! COLLECTION_NAME); rewrite bind_run; reflexivity.
Qed.

End WithWorld.

End WalkFacts.
Import WalkFacts.

(** ** Ingestion: what each file leaves in the summary *)

Module OutcomeFacts.

Import settings.

Section WithWorld.

Context {vector stream : Type} (w : world vector stream).







End WithWorld.

End OutcomeFacts.
Import OutcomeFacts.

(** ** Clearing and inspecting under any behaviour of the store *)

Module MaintenanceFacts.

Import settings.

Section WithWorld.

Context {vector stream : Type} (w : world vector stream).

Lemma cleared_not_nothing : cleared_message <> nothing_to_clear_message.
Proof. discriminate. Qed.

Lemma cleared_not_error e : cleared_message <> clear_error_message e.
Proof. discriminate. Qed.

Lemma clear_any_world st :
  exists st' message,
    clear_database_collection w st = (st', Ok message)
    /\ clear_post st st' message.
Proof.
  assert (Hn : nothing_to_clear_message <> cleared_message)
    by (intros H; symmetry in H; exact (cleared_not_nothing H)).
  assert (He : forall e, clear_error_message e <> cleared_message)
    by (intros e H; symmetry in H; exact (cleared_not_error e H)).
  assert (Hpost_same : forall tr u0 message,
    message <> cleared_message ->
    (message = nothing_to_clear_message
     \/ exists e, message = clear_error_message e) ->
    clear_post st (State tr (store st) u0) message).
  { intros tr u0 message Hne Hm. unfold clear_post. cbn [store].
    repeat split; auto. intros H. contradiction. }
  assert (Hpost_gone : forall tr u0 message,
    message <> cleared_message ->
    (message = nothing_to_clear_message
     \/ exists e, message = clear_error_message e) ->
    clear_post st (State tr (delete COLLECTION_NAME (store st)) u0) message).
  { intros tr u0 message Hne Hm. unfold clear_post. cbn [store].
    repeat split; auto.
    - intros name Hname. apply lookup_delete_ne. congruence.
    - right; left. apply lookup_delete_eq.
    - intros H. contradiction. }
  unfold clear_database_collection, try_except.
  rewrite bind_run, PersistentClient_run. unfold logged.
  destruct (chroma_fault w _) as [e1|].
  { eexists _, _. split; [reflexivity|]. apply Hpost_same; eauto. }
  rewrite bind_run, get_collection_run. unfold logged. cbn [store trace].
  destruct (chroma_fault w _) as [e2|].
  { destruct (exn_cls e2); eexists _, _; (split; [reflexivity|]);
      apply Hpost_same; eauto. }
  destruct (store st !! COLLECTION_NAME) as [items|] eqn:Hitems.
  2:{ eexists _, _. split; [reflexivity|]. apply Hpost_same; eauto. }
  rewrite bind_run, delete_collection_run. unfold logged.
  cbn [store trace uuids_drawn].
  destruct (chroma_fault w _) as [e3|].
  { destruct (exn_cls e3); eexists _, _; (split; [reflexivity|]);
      apply Hpost_same; eauto. }
  rewrite Hitems.
  rewrite bind_run, create_collection_run. unfold logged.
  cbn [store trace uuids_drawn].
  destruct (chroma_fault w _) as [e4|].
  { destruct (exn_cls e4); eexists _, _; (split; [reflexivity|]);
      apply Hpost_gone; eauto. }
  rewrite lookup_delete_eq.
  eexists _, _. split; [reflexivity|]. unfold clear_post. cbn [store].
  repeat split; auto.
  - intros name Hname. rewrite lookup_insert_ne by congruence.
    apply lookup_delete_ne. congruence.
  - right; right. apply lookup_insert_eq.
  - intros _. apply lookup_insert_eq.
Qed.

End WithWorld.

End MaintenanceFacts.
Import MaintenanceFacts.

Module InspectionFacts.

Import settings.

Lemma replace_backslash_n_length s :
  (length (replace_backslash_n s) <= length s)%nat.
Proof.
  assert (H : forall n s, (length s <= n)%nat ->
                          (length (replace_backslash_n s) <= length s)%nat).
  { clear. induction n as [|n IH]; intros [|c [|d s]] Hlen; simpl in *;
      try lia.
    destruct ((c =? 92) && (d =? 110)); simpl.
    - specialize (IH s). lia.
    - specialize (IH (d :: s)). simpl in IH. lia. }
  apply (H (length s)). lia.
Qed.

Lemma lstrip_length s : (length (lstrip s) <= length s)%nat.
Proof.
  induction s as [|c s IH]; simpl; [lia|].
  destruct (isspace c); simpl; lia.
Qed.

Lemma strip_length s : (length (strip s) <= length s)%nat.
Proof.
  unfold strip, rstrip. rewrite length_rev.
  pose proof (lstrip_length (rev (lstrip s))) as H1.
  rewrite length_rev in H1.
  pose proof (lstrip_length s). lia.
Qed.

Lemma snippet_of_length document :
  (length (snippet_of document) <= 150)%nat
  /\ (length (snippet_of document) <= length document)%nat.
Proof.
  unfold snippet_of.
  pose proof (strip_length (replace_backslash_n (take 150 document))) as H1.
  pose proof (replace_backslash_n_length (take 150 document)) as H2.
  rewrite length_take in H2. lia.
Qed.

Lemma sample_lines_length i metas docs :
  length (sample_lines i metas docs)
  = (4 * Nat.min (length metas) (length docs))%nat.
Proof.
  revert i docs. induction metas as [|m metas IH]; intros i [|d docs];
    simpl; try reflexivity.
  rewrite IH. lia.
Qed.

Section WithWorld.

Context {vector stream : Type} (w : world vector stream).
Context (os_path_exists : str -> bool) (VECTOR_DB_PATH : str).
Context (get_fault : list event -> option exn).

Local Abbreviation report :=
  (get_db_inspection_report w os_path_exists VECTOR_DB_PATH get_fault).

(** The report never raises and never writes, whatever the store does. *)
Lemma inspection_any_world st :
  exists st' text,
    report st = (st', Ok text) /\ store st' = store st
    /\ (os_path_exists VECTOR_DB_PATH = false ->
        st' = st /\ text = no_directory_message VECTOR_DB_PATH).
Proof.
  unfold get_db_inspection_report.
  destruct (os_path_exists VECTOR_DB_PATH) eqn:Hex; cbn [negb].
  2:{ eexists _, _. split; [reflexivity|]. auto. }
  unfold try_except.
  rewrite bind_run, PersistentClient_run. unfold logged.
  destruct (chroma_fault w _) as [e1|].
  { eexists _, _. split; [reflexivity|]. split; [reflexivity|discriminate]. }
  rewrite !bind_run, get_collection_run. unfold logged. cbn [store trace].
  destruct (chroma_fault w _) as [e2|].
  { destruct (exn_cls e2); eexists _, _; (split; [reflexivity|]);
      (split; [reflexivity|discriminate]). }
  destruct (store st !! COLLECTION_NAME) as [items|] eqn:Hitems.
  2:{ eexists _, _. split; [reflexivity|].
      split; [reflexivity|discriminate]. }
  cbn [ret]. rewrite bind_run, collection_count_run. unfold logged.
  cbn [store trace uuids_drawn].
  destruct (chroma_fault w _) as [e3|].
  { eexists _, _. split; [reflexivity|]. split; [reflexivity|discriminate]. }
  rewrite Hitems.
  destruct (0 <? length items)%nat.
  2:{ eexists _, _. split; [reflexivity|].
      split; [reflexivity|discriminate]. }
  rewrite !bind_run. unfold collection_get. cbn [store trace].
  destruct (get_fault _) as [e4|].
  { eexists _, _. split; [reflexivity|]. split; [reflexivity|discriminate]. }
  rewrite Hitems.
  eexists _, _. split; [reflexivity|]. split; [reflexivity|discriminate].
Qed.

(** The report of a store that works. *)
Lemma inspection_reliable st :
  os_path_exists VECTOR_DB_PATH = true ->
  reliable w -> (forall tr, get_fault tr = None) ->
  snd (report st)
  = Ok match store st !! COLLECTION_NAME with
       | None => collection_not_found_message
       | Some items =>
           join report_separator
             (found_line (length items)
              :: match items with
                 | [] => []
                 | _ =>
                     sample_header
                     :: sample_lines 0
                          (List.map item_metadata (take 5 items))
                          (List.map item_document (take 5 items))
                 end)
       end.
Proof.
  intros Hex Hrel Hget.
  unfold get_db_inspection_report. rewrite Hex. cbn [negb].
  unfold try_except.
  rewrite bind_run, PersistentClient_run, Hrel. unfold logged.
  rewrite !bind_run, get_collection_run, Hrel. unfold logged.
  cbn [store trace].
  destruct (store st !! COLLECTION_NAME) as [items|] eqn:Hitems;
    [|reflexivity].
  cbn [ret]. rewrite bind_run, collection_count_run, Hrel. unfold logged.
  cbn [store trace uuids_drawn]. rewrite Hitems.
  destruct items as [|it items]; [reflexivity|].
  cbn [length Nat.ltb Nat.leb].
  rewrite !bind_run. unfold collection_get. cbn [store trace].
  rewrite Hget, Hitems. reflexivity.
Qed.

End WithWorld.

End InspectionFacts.
Import InspectionFacts.

(** ** The query path under any behaviour of the services *)

Module AnswerFacts.

Import settings.

Section WithWorld.

Context {vector stream : Type} (w : world vector stream).

Lemma search_vector_db_events q k st st' r :
  search_vector_db w q k st = (st', r) ->
  exists evs, trace st' = trace st ++ evs
              /\ forallb store_event evs = true.
Proof.
  rewrite search_vector_db_run, search_body_run. cbv zeta.
  set (e1 := EvPersistentClient).
  set (e2 := EvGetCollection COLLECTION_NAME).
  set (e3 := EvQuery COLLECTION_NAME k).
  intros H.
  assert (Hcases :
    st' = logged e1 st \/ st' = logged e2 (logged e1 st)
    \/ st' = logged e3 (logged e2 (logged e1 st))).
  { repeat (destruct (chroma_fault w _) || destruct (store st !! _));
      inversion H; auto. }
  destruct Hcases as [-> | [-> | ->]]; simpl.
  - exists [e1]. split; reflexivity.
  - exists [e1; e2]. rewrite <- app_assoc. split; reflexivity.
  - exists [e1; e2; e3]. rewrite <- !app_assoc. split; reflexivity.
Qed.

Lemma store_events_no_calls evs :
  forallb store_event evs = true ->
  chat_calls evs = [] /\ embedding_calls evs = [].
Proof.
  unfold chat_calls, embedding_calls.
  induction evs as [|ev evs IH]; simpl; [auto|].
  intros H. apply andb_prop in H as [Hev Hevs].
  unfold store_event in Hev. apply andb_prop in Hev as [Hc He].
  destruct (is_chat ev); [discriminate|].
  destruct (is_embeddings ev); [discriminate|]. auto.
Qed.

(** With results, the answer is whatever the generation call gives. *)
Lemma answer_with_results query st st1 v st2 l :
  embeddings w EMBEDDING_MODEL query st = (st1, Ok v) ->
  search_vector_db w v 5 st1 = (st2, Ok l) ->
  l <> [] ->
  get_rag_response_stream w query st
  = let prompt :=
      format_prompt (join context_separator (List.map document l)) query in
    (logged (EvChat LLM_MODEL prompt) st2,
     match ollama_chat w (trace st2 ++ [EvChat LLM_MODEL prompt])
             LLM_MODEL prompt with
     | Ok s => Ok (Some s, sources_text l)
     | Raise e => Raise e
     end).
Proof.
  intros Hembed Hsearch Hl. unfold get_rag_response_stream.
  rewrite bind_run, Hembed, bind_run, Hsearch.
  destruct l as [|r l]; [contradiction|]. cbn [truthy negb]. cbv zeta.
  rewrite bind_run, chat_run.
  destruct (ollama_chat w _ _ _); reflexivity.
Qed.

(** A query never writes to the store; it embeds once, first, and calls
    the generation service at most once, last. *)
Lemma answer_frame query st st' r :
  get_rag_response_stream w query st = (st', r) ->
  store st' = store st
  /\ exists evs,
       trace st' = trace st ++ EvEmbeddings EMBEDDING_MODEL query :: evs
       /\ embedding_calls evs = []
       /\ (chat_calls evs = []
           \/ exists before prompt,
                evs = before ++ [EvChat LLM_MODEL prompt]
                /\ chat_calls before = []).
Proof.
  destruct (embeddings w EMBEDDING_MODEL query st) as [st1 [v|e]] eqn:Hembed.
  2:{ unfold get_rag_response_stream. rewrite bind_run, Hembed.
      rewrite embeddings_run in Hembed. inversion Hembed; subst.
      intros H. inversion H; subst. split; [reflexivity|].
      exists []. auto. }
  destruct (search_vector_db w v 5 st1) as [st2 r2] eqn:Hsearch.
  destruct (search_vector_db_frame w _ _ _ _ _ Hsearch) as [Hstore _].
  destruct (search_vector_db_events _ _ _ _ _ Hsearch) as [evs [Htrace Hevs]].
  destruct (store_events_no_calls evs Hevs) as [Hnochat Hnoembed].
  pose proof Hembed as Hembed'. rewrite embeddings_run in Hembed'.
  inversion Hembed'; subst st1. cbn [store trace logged] in *.
  destruct r2 as [l|e].
  2:{ unfold get_rag_response_stream.
      rewrite bind_run, Hembed, bind_run, Hsearch.
      intros H. inversion H; subst. split; [exact Hstore|].
      exists evs. rewrite Htrace, <- app_assoc. auto. }
  destruct l as [|r0 l].
  - unfold get_rag_response_stream.
    rewrite bind_run, Hembed, bind_run, Hsearch. cbn [truthy negb].
    intros H. inversion H; subst. split; [exact Hstore|].
    exists evs. rewrite Htrace, <- app_assoc. auto.
  - rewrite (answer_with_results query st _ v st2 (r0 :: l) Hembed Hsearch)
      by discriminate.
    cbv zeta. intros H. inversion H; subst. cbn [store trace logged].
    split; [exact Hstore|].
    eexists (evs ++ [EvChat LLM_MODEL _]).
    rewrite Htrace, <- !app_assoc. split; [reflexivity|].
    split.
    + unfold embedding_calls in *. rewrite List.filter_app, Hnoembed.
      reflexivity.
    + right. eauto.
Qed.

End WithWorld.

End AnswerFacts.
Import AnswerFacts.

(** ** The citation list does not depend on the ranking *)

Module CitationOrderFacts.

Lemma str_leb_refl a : str_leb a a = true.
Proof.
  induction a as [|x a IH]; simpl; [reflexivity|].
  rewrite N.ltb_irrefl. exact IH.
Qed.

Lemma str_leb_antisym a b : str_leb a b = true -> str_leb b a = true -> a = b.
Proof.
  revert b. induction a as [|x a IH]; intros [|y b]; simpl; try discriminate;
    [reflexivity|].
  destruct (x <? y) eqn:Hxy, (y <? x) eqn:Hyx; try discriminate.
  - apply N.ltb_lt in Hxy, Hyx. lia.
  - intros Hab Hba. apply N.ltb_ge in Hxy, Hyx.
    assert (x = y) by lia. subst. f_equal. apply IH; assumption.
Qed.

Lemma str_leb_trans a b c :
  str_leb a b = true -> str_leb b c = true -> str_leb a c = true.
Proof.
  revert b c. induction a as [|x a IH]; intros [|y b] [|z c]; simpl;
    try discriminate; try reflexivity.
  destruct (x <? y) eqn:Hxy, (y <? z) eqn:Hyz, (x <? z) eqn:Hxz;
    try reflexivity;
    repeat match goal with
           | H : (_ <? _) = true |- _ => apply N.ltb_lt in H
           | H : (_ <? _) = false |- _ => apply N.ltb_ge in H
           end;
    try lia.
  - destruct (z <? y) eqn:Hzy; [discriminate|]. apply N.ltb_ge in Hzy.
    intros _ _. destruct (z <? x) eqn:Hzx; [apply N.ltb_lt in Hzx; lia|].
    lia.
  - destruct (y <? x) eqn:Hyx; [discriminate|]. apply N.ltb_ge in Hyx.
    intros _ _. lia.
  - destruct (y <? x) eqn:Hyx; [discriminate|].
    destruct (z <? y) eqn:Hzy; [discriminate|].
    apply N.ltb_ge in Hyx, Hzy.
    assert (x = y) by lia. assert (y = z) by lia. subst.
    rewrite N.ltb_irrefl. apply IH.
Qed.

Lemma sorted_strongly l : StronglySorted str_le (sorted l).
Proof.
  apply Sorted_StronglySorted; [|apply sorted_sorted].
  intros a b c. apply str_leb_trans.
Qed.

(** A sorted list is determined by its elements. *)
Lemma strongly_sorted_unique l l' :
  Permutation l l' ->
  StronglySorted str_le l -> StronglySorted str_le l' -> l = l'.
Proof.
  revert l'. induction l as [|x l IH]; intros l' Hperm Hs Hs'.
  - apply Permutation_nil in Hperm. subst. reflexivity.
  - destruct l' as [|y l'].
    { apply Permutation_sym, Permutation_nil in Hperm. discriminate. }
    inversion Hs as [|? ? Hsl Hx]; subst.
    inversion Hs' as [|? ? Hsl' Hy]; subst.
    assert (Hxy : x = y).
    { assert (Hin : In x (y :: l'))
        by (apply (Permutation_in _ Hperm); left; reflexivity).
      assert (Hin' : In y (x :: l))
        by (apply (Permutation_in _ (Permutation_sym Hperm)); left;
            reflexivity).
      destruct Hin as [->|Hin]; [reflexivity|].
      destruct Hin' as [->|Hin']; [reflexivity|].
      rewrite List.Forall_forall in Hx, Hy.
      apply str_leb_antisym; [apply Hx, Hin'|apply Hy, Hin]. }
    subst y. f_equal. apply IH; try assumption.
    apply (Permutation_cons_inv Hperm).
Qed.

Lemma sorted_permutation l l' : Permutation l l' -> sorted l = sorted l'.
Proof.
  intros Hperm. apply strongly_sorted_unique; try apply sorted_strongly.
  rewrite (sorted_perm l), (sorted_perm l'). exact Hperm.
Qed.

Lemma first_occurrences_permutation l l' :
  Permutation l l' ->
  Permutation (first_occurrences l) (first_occurrences l').
Proof.
  intros Hperm. apply Permutation.NoDup_Permutation;
    try apply first_occurrences_NoDup.
  intros p. rewrite !first_occurrences_In. split; apply Permutation_in.
  - exact Hperm.
  - apply Permutation_sym, Hperm.
Qed.

Lemma citation_list_permutation results results' :
  Permutation results results' ->
  citation_list results = citation_list results'.
Proof.
  intros Hperm. unfold citation_list. apply sorted_permutation.
  apply Permutation_map, first_occurrences_permutation.
  unfold source_paths. apply Permutation_flat_map, Hperm.
Qed.

End CitationOrderFacts.
Import CitationOrderFacts.

(** ** The chat handler *)

Module AppFacts.

Lemma fold_stream_step query sources earlier stream full yields :
  fold_left (stream_step query sources earlier) stream (full, yields)
  = (full ++ concat (contents_of stream),
     yields
     ++ List.map (fun t => (earlier ++ [(query, Some (full ++ t))], sources))
          (running (contents_of stream))).
Proof.
  revert full yields. induction stream as [|piece stream IH];
    intros full yields.
  - simpl. rewrite !app_nil_r. reflexivity.
  - simpl fold_left. destruct piece as [c|]; simpl stream_step.
    + rewrite IH. simpl. rewrite <- !app_assoc. f_equal. f_equal. simpl.
      f_equal. rewrite map_map.
      apply map_ext. intros t. rewrite <- app_assoc. reflexivity.
    + rewrite IH. reflexivity.
Qed.

Lemma running_length contents : length (running contents) = length contents.
Proof.
  induction contents as [|c cs IH]; simpl; [reflexivity|].
  rewrite length_map, IH. reflexivity.
Qed.

Lemma running_last_from acc contents :
  contents <> [] ->
  List.last (List.map (fun t => acc ++ t) (running contents)) []
  = acc ++ concat contents.
Proof.
  revert acc. induction contents as [|c cs IH]; [contradiction|].
  intros acc _. destruct cs as [|d cs].
  - simpl. rewrite app_nil_r. reflexivity.
  - change (running (c :: d :: cs))
      with (c :: List.map (fun t => c ++ t) (running (d :: cs))).
    rewrite map_cons, map_map.
    rewrite (map_ext _ (fun t => (acc ++ c) ++ t))
      by (intros t; apply app_assoc).
    change (concat (c :: d :: cs)) with (c ++ concat (d :: cs)).
    rewrite app_assoc, <- (IH (acc ++ c) ltac:(discriminate)).
    simpl. reflexivity.
Qed.

Lemma running_last contents :
  contents <> [] -> List.last (running contents) [] = concat contents.
Proof.
  intros Hne. pose proof (running_last_from [] contents Hne) as H.
  rewrite (map_ext _ (fun t => t)), map_id in H by reflexivity.
  exact H.
Qed.

End AppFacts.
Import AppFacts.

(** * Further theorems *)

(** ** [chunk_text] *)

(** X1.  Chunking loses, adds and reorders no token: the tokens of the
    chunks, in order, are the tokens of the text, for every bound. *)
Theorem chunk_text_keeps_every_token (text : str) (max_tokens : Z) :
  concat (List.map split_ws (chunk_text text max_tokens)) = split_ws text.
Proof. apply chunk_text_tokens. Qed.

(** X2.  Every chunk is trimmed: it is the empty string, or it starts and
    ends with a character that is not white space. *)
Theorem chunk_text_chunks_trimmed (text : str) (max_tokens : Z) :
  Forall (fun chunk => trimmed chunk /\ (chunk = [] \/ tight chunk))
    (chunk_text text max_tokens).
Proof.
  rewrite chunk_text_groups. apply List.Forall_forall. intros chunk Hin.
  apply in_map_iff in Hin as [group [<- _]].
  split; [apply render_trimmed|].
  unfold render. destruct (truthy (strip (buffer_of group))) eqn:Ht.
  - right. apply strip_tight, Ht.
  - left. destruct (strip (buffer_of group)); [reflexivity|discriminate].
Qed.

(** X3.  A text with fewer tokens than the bound is one chunk, the trimmed
    text, or no chunk when it has no token. *)
Theorem chunk_text_below_bound (text : str) (max_tokens : Z) :
  (word_count text < max_tokens)%Z ->
  chunk_text text max_tokens = if has_word text then [strip text] else [].
Proof.
  intros Hfit. unfold chunk_text.
  pose proof (fold_fits max_tokens (split_on nl text) []) as Hfold.
  cbn [app] in Hfold. rewrite buffer_of_paragraphs in Hfold.
  change (buffer_of []) with (@nil N) in Hfold.
  rewrite Hfold by (rewrite word_count_para_nl; exact Hfit).
  rewrite truthy_strip, truthy_split_ws.
  rewrite has_word_snoc_space by apply isspace_nl.
  destruct (has_word text) eqn:Hw; [|reflexivity].
  rewrite strip_snoc_space by (apply isspace_nl || exact Hw).
  reflexivity.
Qed.

Lemma chunk_text_below_bound_witness :
  (word_count (u "  one two" ++ [nl] ++ u "three ") < 400)%Z
  /\ chunk_text (u "  one two" ++ [nl] ++ u "three ") 400
     = [u "one two" ++ [nl] ++ u "three"].
Proof.
  split; [vm_compute; reflexivity|].
  rewrite (chunk_text_below_bound (u "  one two" ++ [nl] ++ u "three ") 400)
    by (vm_compute; reflexivity).
  vm_compute. reflexivity.
Defined.

(** X4.  At a positive bound the chunker returns no chunk exactly for the
    texts without a token. *)
Theorem chunk_text_empty_iff_blank (text : str) (max_tokens : Z) :
  (0 < max_tokens)%Z ->
  chunk_text text max_tokens = [] <-> has_word text = false.
Proof.
  intros Hpos. split.
  - intros Hnone. rewrite <- truthy_split_ws, <- (chunk_text_tokens text max_tokens).
    rewrite Hnone. reflexivity.
  - intros Hblank. apply chunk_text_blank; [exact Hpos|].
    assert (Hnil : concat (List.map split_ws (split_on nl text)) = []).
    { rewrite <- split_ws_paragraphs. rewrite <- truthy_split_ws in Hblank.
      destruct (split_ws text); [reflexivity|discriminate]. }
    revert Hnil. generalize (split_on nl text). intros paras.
    induction paras as [|p paras IH]; simpl; [constructor|].
    intros Hnil. apply app_eq_nil in Hnil as [Hp Hrest].
    constructor; [|apply IH, Hrest].
    unfold blank. rewrite Hp. reflexivity.
Qed.

Lemma chunk_text_empty_iff_blank_witness :
  (0 < 400)%Z
  /\ has_word ([nl] ++ u "   " ++ [nl; 9]) = false
  /\ chunk_text ([nl] ++ u "   " ++ [nl; 9]) 400 = [].
Proof.
  split; [lia|]. split; [reflexivity|].
  apply (chunk_text_empty_iff_blank ([nl] ++ u "   " ++ [nl; 9]) 400);
    [lia|reflexivity].
Defined.

(** ** [clean_html] *)

(** X5.  Nothing inside a script or style element reaches the text, and
    neither does a comment, the doctype, a declaration, a processing
    instruction or a string of a container class: the text is made of the
    strings of the document that are ordinary text or CDATA and lie
    outside script and style elements, in document order, each trimmed,
    the empty ones dropped, one per line. *)
Theorem clean_html_hides_script_and_style
  (html_parser : str -> list node) (html title text : str) :
  clean_html html_parser html = Ok (title, text) ->
  text = join [nl]
           (List.filter truthy
              (List.map strip
                 (flat_map visible_strings (html_parser html)))).
Proof.
  intros Hclean. rewrite (clean_soup_text _ _ _ Hclean).
  unfold get_text. rewrite all_strings_decompose_soup. reflexivity.
Qed.

Lemma clean_html_hides_script_and_style_witness :
  clean_html (fun _ => styled_page) (u "<html>..</html>")
  = Ok (u "Pricing", u "Pricing" ++ [nl] ++ u "Plans start at ten")
  /\ flat_map visible_strings styled_page
     = [u " Pricing "; u " Plans start at ten "; [nl]]
  /\ u "Pricing" ++ [nl] ++ u "Plans start at ten"
     = join [nl]
         (List.filter truthy
            (List.map strip (flat_map visible_strings styled_page))).
Proof.
  split; [vm_compute; reflexivity|]. split; [vm_compute; reflexivity|].
  apply (clean_html_hides_script_and_style (fun _ => styled_page)
           (u "<html>..</html>") (u "Pricing")).
  vm_compute. reflexivity.
Defined.

(** X6.  Whatever the document, the title and the text that [clean_html]
    returns have no white space at either end. *)
Theorem clean_html_outputs_trimmed
  (html_parser : str -> list node) (html title text : str) :
  clean_html html_parser html = Ok (title, text) ->
  trimmed title /\ trimmed text.
Proof.
  intros Hclean. split.
  - destruct (clean_soup_title _ _ _ Hclean) as [-> | [s ->]].
    + vm_compute. reflexivity.
    + apply strip_idem.
  - rewrite (clean_soup_text _ _ _ Hclean). apply join_trimmed.
Qed.

Lemma clean_html_outputs_trimmed_witness :
  clean_html (fun _ => styled_page) (u "<html>..</html>")
  = Ok (u "Pricing", u "Pricing" ++ [nl] ++ u "Plans start at ten")
  /\ trimmed (u "Pricing")
  /\ trimmed (u "Pricing" ++ [nl] ++ u "Plans start at ten").
Proof.
  split; [vm_compute; reflexivity|].
  apply (clean_html_outputs_trimmed (fun _ => styled_page)
           (u "<html>..</html>")).
  vm_compute. reflexivity.
Defined.

(** ** [ingest_directory] and [handle_folder] *)

Section IngestMore.

Import settings.

Context {vector stream : Type}.

(** X7.  One file is indexed whole or not at all, whatever the services
    do: after the loop body the store is as it was, or the collection has
    grown by one item per chunk of the file, each with the title and path
    of the file, and the summary has the success line. *)
Theorem ingest_file_all_or_nothing (w : world vector stream)
  (collection root file : str) (summary : list str) (st st' : state vector)
  (r : result (list str)) :
  ingest_file w collection root summary file st = (st', r) ->
  store st' = store st
  \/ exists html line,
       open_read w (path_join root file) = Ok html
       /\ indexed_whole w collection file (path_join root file) html st st'
            (Ok (Some line))
       /\ r = Ok (summary ++ [line]).
Proof.
  unfold ingest_file. destruct (is_html_name file); cbn [negb].
  2:{ unfold ret. intros H. inversion H. left. reflexivity. }
  cbv zeta. rewrite bind_run. unfold lift.
  destruct (open_read w (path_join root file)) as [html|e] eqn:Hread.
  2:{ intros H. inversion H. left. reflexivity. }
  unfold try_except. rewrite bind_run.
  destruct (process_html w collection file (path_join root file) html st)
    as [st1 r1] eqn:Hproc.
  destruct (process_html_all_or_nothing w _ _ _ _ _ _ _ Hproc)
    as [[Hstore Hr] | Hwhole].
  - destruct Hr as [-> | [e ->]]; unfold ret; intros H; inversion H; subst;
      left; exact Hstore.
  - pose proof Hwhole as [title [text [old [items [_ [_ [_ [_ [_ ->]]]]]]]]].
    unfold ret. intros H. inversion H; subst. right. eauto.
Qed.

(** X8.  When nothing fails, a file with chunks costs one embedding call
    per chunk, in chunk order, then one index write holding every chunk
    with a fresh id and the title and path of the file; the summary gets
    the success line with the number of chunks. *)
Theorem ingest_file_indexes_every_chunk (w : world vector stream)
  (collection root file html title text : str) (summary : list str)
  (old : list (item vector)) (st : state vector) :
  is_html_name file = true ->
  open_read w (path_join root file) = Ok html ->
  clean_html (html_parser w) html = Ok (title, text) ->
  chunk_text text CHUNK_SIZE_TOKENS <> [] ->
  store st !! collection = Some old ->
  (forall tr prompt,
     exists v, ollama_embeddings w tr EMBEDDING_MODEL prompt = Ok v) ->
  reliable w ->
  let chunks := chunk_text text CHUNK_SIZE_TOKENS in
  exists st' new_items,
    ingest_file w collection root summary file st
    = (st', Ok (summary ++ [success_line file (length chunks)]))
    /\ trace st'
       = trace st ++ List.map (EvEmbeddings EMBEDDING_MODEL) chunks
         ++ [EvAdd collection chunks]
    /\ store st' = <[collection := old ++ new_items]> (store st)
    /\ List.map item_document new_items = chunks
    /\ List.map item_id new_items
       = List.map (uuid4 w) (seq (uuids_drawn st) (length chunks))
    /\ Forall (fun it =>
                 item_metadata it
                 = chunk_metadata title (path_join root file)) new_items.
Proof.
  intros Hname Hread Hclean Hchunks Hold Hembed Hrel.
  assert (Htruthy : negb (truthy (chunk_text text CHUNK_SIZE_TOKENS)) = false)
    by (destruct (chunk_text text CHUNK_SIZE_TOKENS);
        [contradiction|reflexivity]).
  intros chunks.
  destruct (mapM_embeddings_ok w chunks st Hembed) as [vs [Hrun Hlen]].
  destruct (make_items_documents
              (List.map (uuid4 w) (seq (uuids_drawn st) (length chunks)))
              vs chunks (chunk_metadata title (path_join root file)))
    as [Hd [Hid Hm]]; [rewrite length_map, length_seq; reflexivity|exact Hlen|].
  exists (State (trace st ++ List.map (EvEmbeddings EMBEDDING_MODEL) chunks
                 ++ [EvAdd collection chunks])
                (<[collection :=
                     old ++ make_items
                              (List.map (uuid4 w)
                                 (seq (uuids_drawn st) (length chunks)))
                              vs chunks
                              (chunk_metadata title (path_join root file))]>
                   (store st))
                (uuids_drawn st + length chunks)),
    (make_items
       (List.map (uuid4 w) (seq (uuids_drawn st) (length chunks)))
       vs chunks (chunk_metadata title (path_join root file))).
  split; [|split; [reflexivity|split; [reflexivity|auto]]].
  unfold ingest_file. rewrite Hname. cbn [negb]. cbv zeta.
  rewrite bind_run. unfold lift. rewrite Hread.
  unfold try_except. rewrite bind_run.
  unfold process_html. rewrite bind_run. unfold lift. rewrite Hclean.
  rewrite Htruthy. fold chunks. rewrite bind_run, Hrun.
  rewrite bind_run, mapM_fresh_uuid, bind_run, collection_add_run.
  cbv zeta. rewrite Hrel. cbn [store trace uuids_drawn]. rewrite Hold.
  rewrite Hd, <- app_assoc. reflexivity.
Qed.


(** X10.  A folder with no [.html] or [.htm] name gives the empty report
    and makes two store calls only; the collection exists afterwards,
    empty if it was not there, and no other collection changes. *)
Theorem ingest_directory_without_html (w : world vector stream)
  (folder_path : str) (st : state vector) :
  Forall (fun entry => Forall (fun file => is_html_name file = false)
                         (snd entry)) (os_walk w folder_path) ->
  chroma_fault w (trace st ++ [EvPersistentClient]) = None ->
  chroma_fault w ((trace st ++ [EvPersistentClient])
                  ++ [EvGetOrCreateCollection COLLECTION_NAME]) = None ->
  exists st',
    ingest_directory w folder_path st = (st', Ok [])
    /\ trace st' = trace st ++ [EvPersistentClient;
                                EvGetOrCreateCollection COLLECTION_NAME]
    /\ store st' !! COLLECTION_NAME
       = Some (default [] (store st !! COLLECTION_NAME))
    /\ forall name, name <> COLLECTION_NAME ->
                    store st' !! name = store st !! name.
Proof.
  intros Hnone H1 H2.
  rewrite ingest_directory_run. cbv zeta. cbn [trace logged].
  rewrite H1, H2, walk_skips by exact Hnone.
  eexists. split; [reflexivity|].
  destruct (store st !! COLLECTION_NAME) as [items|] eqn:Hitems;
    unfold logged; cbn [trace store default]; rewrite <- app_assoc;
    (split; [reflexivity|]).
  - split; [exact Hitems|reflexivity].
  - split; [apply lookup_insert_eq|].
    intros name Hname. apply lookup_insert_ne. congruence.
Qed.

End IngestMore.

Lemma ingest_file_all_or_nothing_witness :
  exists st',
    ingest_file (demo_world []) settings.COLLECTION_NAME (u "docs") []
      (u "pricing.html") stocked_state
    = (st', Ok [success_line (u "pricing.html") 1])
    /\ (store st' = store stocked_state
        \/ exists html line,
             demo_open_read (u "docs/pricing.html") = Ok html
             /\ indexed_whole (demo_world []) settings.COLLECTION_NAME
                  (u "pricing.html") (u "docs/pricing.html") html
                  stocked_state st' (Ok (Some line))
             /\ Ok [success_line (u "pricing.html") 1]
                = Ok ([] ++ [line])).
Proof.
  destruct (ingest_file (demo_world []) settings.COLLECTION_NAME (u "docs")
              [] (u "pricing.html") stocked_state) as [st' r] eqn:Hrun.
  exists st'.
  assert (Hr : r = Ok [success_line (u "pricing.html") 1]).
  { pose proof (f_equal snd Hrun) as Hsnd. simpl in Hsnd.
    rewrite <- Hsnd. vm_compute. reflexivity. }
  subst r. split; [reflexivity|].
  exact (ingest_file_all_or_nothing (demo_world []) _ _ _ _ _ _ _ Hrun).
Defined.

Lemma ingest_file_indexes_every_chunk_witness :
  exists st' (new_items : list (item (list Z))),
    ingest_file (demo_world []) settings.COLLECTION_NAME (u "docs") []
      (u "pricing.html") stocked_state
    = (st', Ok [success_line (u "pricing.html") 1])
    /\ trace st'
       = [EvEmbeddings settings.EMBEDDING_MODEL
            (u "Pricing" ++ [nl] ++ u "Plans start at ten");
          EvAdd settings.COLLECTION_NAME
            [u "Pricing" ++ [nl] ++ u "Plans start at ten"]]
    /\ List.map item_id new_items = [u "uuid-0"].
Proof.
  destruct (ingest_file_indexes_every_chunk (demo_world [])
              settings.COLLECTION_NAME (u "docs") (u "pricing.html")
              pricing_html (u "Pricing")
              (u "Pricing" ++ [nl] ++ u "Plans start at ten") []
              [demo_item (u "id-1") (u "Plans start at ten")
                 (u "docs/pricing.html");
               demo_item (u "id-2") (u "Support is included")
                 (u "docs/faq.html")]
              stocked_state)
    as [st' [items [Hrun [Htrace [_ [_ [Hids _]]]]]]].
  - reflexivity.
  - reflexivity.
  - vm_compute. reflexivity.
  - vm_compute. discriminate.
  - apply lookup_insert_eq.
  - intros tr prompt. eexists. reflexivity.
  - intros tr. reflexivity.
  - exists st', items. split; [|split].
    + rewrite Hrun. vm_compute. reflexivity.
    + rewrite Htrace. vm_compute. reflexivity.
    + rewrite Hids. vm_compute. reflexivity.
Defined.


Lemma ingest_directory_without_html_witness :
  exists st',
    ingest_directory (demo_world [u "notes.txt"; u "html"; u "a.html.bak"])
      (u "docs") empty_state = (st', Ok [])
    /\ store st' !! settings.COLLECTION_NAME = Some [].
Proof.
  destruct (ingest_directory_without_html
              (demo_world [u "notes.txt"; u "html"; u "a.html.bak"])
              (u "docs") empty_state)
    as [st' [Hrun [_ [Hstore _]]]].
  - repeat constructor.
  - reflexivity.
  - reflexivity.
  - exists st'. split; [exact Hrun|]. rewrite Hstore. reflexivity.
Defined.

(** ** Maintenance: clearing and inspecting *)

Section MaintenanceMore.

Import settings.

Context {vector stream : Type}.

(** X11.  [clear_database_collection] never raises, whatever the store
    does: it returns one of its three messages, touches no other
    collection, leaves the collection as it was, gone or empty, and says
    it was cleared only when the collection is there and empty. *)
Theorem clear_database_collection_never_raises (w : world vector stream)
  (st : state vector) :
  exists st' message,
    clear_database_collection w st = (st', Ok message)
    /\ clear_post st st' message.
Proof. apply clear_any_world. Qed.

(** X12.  [get_db_inspection_report] never raises and never changes the
    store, whatever the store does; without the database directory it
    makes no store call at all. *)
Theorem inspection_never_raises_or_writes (w : world vector stream)
  (os_path_exists : str -> bool) (VECTOR_DB_PATH : str)
  (get_fault : list event -> option exn) (st : state vector) :
  exists st' text,
    get_db_inspection_report w os_path_exists VECTOR_DB_PATH get_fault st
    = (st', Ok text)
    /\ store st' = store st
    /\ (os_path_exists VECTOR_DB_PATH = false ->
        st' = st /\ text = no_directory_message VECTOR_DB_PATH).
Proof. apply inspection_any_world. Qed.

(** X13.  With a store that works, the report of a missing collection is
    the not-found message; otherwise it is the line with the number of
    stored chunks, followed for a non-empty collection by the sample
    header and four lines for each of the first five items at most, all
    joined by the two characters backslash and n. *)
Theorem inspection_report_of_working_store (w : world vector stream)
  (os_path_exists : str -> bool) (VECTOR_DB_PATH : str)
  (get_fault : list event -> option exn) (st : state vector) :
  os_path_exists VECTOR_DB_PATH = true ->
  reliable w ->
  (forall tr, get_fault tr = None) ->
  match store st !! COLLECTION_NAME with
  | None =>
      snd (get_db_inspection_report w os_path_exists VECTOR_DB_PATH
             get_fault st)
      = Ok collection_not_found_message
  | Some items =>
      exists lines,
        snd (get_db_inspection_report w os_path_exists VECTOR_DB_PATH
               get_fault st)
        = Ok (join report_separator (found_line (length items) :: lines))
        /\ lines
           = match items with
             | [] => []
             | _ =>
                 sample_header
                 :: sample_lines 0 (List.map item_metadata (take 5 items))
                      (List.map item_document (take 5 items))
             end
        /\ length lines
           = match items with
             | [] => 0%nat
             | _ => (1 + 4 * Nat.min 5 (length items))%nat
             end
  end.
Proof.
  intros Hex Hrel Hget.
  rewrite (inspection_reliable w _ _ _ st Hex Hrel Hget).
  destruct (store st !! COLLECTION_NAME) as [items|]; [|reflexivity].
  eexists. split; [reflexivity|]. split; [reflexivity|].
  destruct items as [|it items]; [reflexivity|].
  cbn [length]. rewrite sample_lines_length, !length_map, length_take.
  cbn [length]. lia.
Qed.

End MaintenanceMore.

(** X14.  The snippet shown for a stored chunk has at most 150 characters,
    is never longer than the chunk, and has no white space at either
    end. *)
Theorem snippet_is_short_and_trimmed (document : str) :
  (length (snippet_of document) <= 150)%nat
  /\ (length (snippet_of document) <= length document)%nat
  /\ trimmed (snippet_of document).
Proof.
  destruct (snippet_of_length document) as [H150 Hlen].
  repeat split; [exact H150|exact Hlen|apply strip_idem].
Qed.

Lemma inspection_report_of_working_store_witness :
  reliable (demo_world [])
  /\ snd (get_db_inspection_report (demo_world []) (fun _ => true)
            (u ".chroma_db") (fun _ => None) empty_state)
     = Ok collection_not_found_message
  /\ exists lines,
       snd (get_db_inspection_report (demo_world []) (fun _ => true)
              (u ".chroma_db") (fun _ => None) stocked_state)
       = Ok (join report_separator (found_line 2 :: lines))
       /\ length lines = 9%nat.
Proof.
  split; [intros tr; reflexivity|]. split.
  - pose proof (inspection_report_of_working_store (demo_world [])
                  (fun _ => true) (u ".chroma_db") (fun _ => None)
                  empty_state eq_refl (fun _ => eq_refl) (fun _ => eq_refl))
      as H.
    unfold empty_state in H at 1. cbn [store] in H.
    rewrite lookup_empty in H. exact H.
  - pose proof (inspection_report_of_working_store (demo_world [])
                  (fun _ => true) (u ".chroma_db") (fun _ => None)
                  stocked_state eq_refl (fun _ => eq_refl) (fun _ => eq_refl))
      as H.
    unfold stocked_state in H at 1. cbn [store] in H.
    rewrite lookup_insert_eq in H.
    destruct H as [lines [Hrun [_ Hlen]]]. exists lines. split; assumption.
Defined.

(** ** The query path *)

Section AnswerMore.

Import settings.

Context {vector stream : Type}.

(** X15.  Whatever the services do, a query never writes to the store; it
    makes exactly one embedding call, its first call, for the query text,
    and at most one call to the generation service, its last call. *)
Theorem get_rag_response_stream_reads_only (w : world vector stream)
  (query : str) (st : state vector) :
  store (fst (get_rag_response_stream w query st)) = store st
  /\ exists evs,
       trace (fst (get_rag_response_stream w query st))
       = trace st ++ EvEmbeddings EMBEDDING_MODEL query :: evs
       /\ embedding_calls evs = []
       /\ (chat_calls evs = []
           \/ exists before prompt,
                evs = before ++ [EvChat LLM_MODEL prompt]
                /\ chat_calls before = []).
Proof.
  destruct (get_rag_response_stream w query st) as [st' r] eqn:Hrun.
  apply (answer_frame w query st st' r Hrun).
Qed.

End AnswerMore.

(** ** Citations *)

(** X18.  The source list does not depend on the order of the retrieved
    chunks: two result sequences that are permutations of each other give
    the same text. *)
Theorem sources_text_ignores_ranking (results results' : list retrieved) :
  Permutation results results' ->
  sources_text results = sources_text results'.
Proof.
  intros Hperm. unfold sources_text, source_bullets.
  rewrite !source_documents_first_occurrences.
  fold (citation_list results). fold (citation_list results').
  rewrite (citation_list_permutation results results' Hperm). reflexivity.
Qed.

Lemma sources_text_ignores_ranking_witness :
  Permutation ranked_results (rev ranked_results)
  /\ sources_text ranked_results = sources_text (rev ranked_results).
Proof.
  split; [apply Permutation_rev|].
  apply sources_text_ignores_ranking, Permutation_rev.
Defined.

(** ** The chat handler *)

Section ChatMore.

Context {vector : Type}.

(** X19.  Whatever the services do, the handler first yields the history
    with the new question unanswered and the thinking notice; every yield
    is the earlier history followed by one turn for the question; and the
    store is never written. *)
Theorem handle_chat_submission_adds_one_turn
  (w : world vector (list (option str))) (query : str) (earlier : history)
  (st : state vector) :
  let '(st', (yields, _)) := handle_chat_submission w query earlier st in
  hd_error yields = Some (earlier ++ [(query, None)], thinking)
  /\ Forall (fun y => exists answer, fst y = earlier ++ [(query, answer)])
       yields
  /\ store st' = store st.
Proof.
  unfold handle_chat_submission.
  destruct (get_rag_response_stream w query st) as [st0 r0] eqn:Hrun.
  destruct (answer_frame w query st st0 r0 Hrun) as [Hstore _].
  destruct r0 as [[[stream|] sources]|e].
  - rewrite fold_stream_step. cbn [snd app hd_error].
    split; [reflexivity|]. split; [|exact Hstore].
    constructor; [eauto|].
    apply List.Forall_forall. intros y Hy.
    apply in_map_iff in Hy as [t [<- _]]. eauto.
  - split; [reflexivity|]. split; [|exact Hstore].
    repeat constructor; eauto.
  - split; [reflexivity|]. split; [|exact Hstore].
    repeat constructor; eauto.
Qed.

(** X20.  With a stream, the handler yields once per piece that carries
    text, each time with the concatenation of the texts so far and the
    source list; a piece without text yields nothing, and the answer of
    the last yield is the whole response. *)
Theorem handle_chat_submission_streams (w : world vector (list (option str)))
  (query sources : str) (earlier : history) (stream : list (option str))
  (st st' : state vector) :
  get_rag_response_stream w query st = (st', Ok (Some stream, sources)) ->
  handle_chat_submission w query earlier st
  = (st',
     ((earlier ++ [(query, None)], thinking)
      :: List.map (fun t => (earlier ++ [(query, Some t)], sources))
           (running (contents_of stream)),
      None))
  /\ length (running (contents_of stream)) = length (contents_of stream)
  /\ (contents_of stream <> [] ->
      List.last (running (contents_of stream)) []
      = concat (contents_of stream)).
Proof.
  intros Hrun. unfold handle_chat_submission. rewrite Hrun.
  rewrite fold_stream_step. cbn [snd app].
  split; [reflexivity|]. split; [apply running_length|apply running_last].
Qed.

End ChatMore.

Lemma handle_chat_submission_streams_witness :
  handle_chat_submission chat_world (u "What does it cost?") earlier_turns
    stocked_state
  = (fst (get_rag_response_stream chat_world (u "What does it cost?")
            stocked_state),
     ([(earlier_turns ++ [(u "What does it cost?", None)], thinking);
       (earlier_turns
        ++ [(u "What does it cost?", Some (u "Plans start "))],
        sources_text (List.map normalize
                        (ranked chat_world
                           (demo_embed (u "What does it cost?"))
                           (default [] (store stocked_state
                                          !! settings.COLLECTION_NAME)))));
       (earlier_turns
        ++ [(u "What does it cost?", Some (u "Plans start at ten."))],
        sources_text (List.map normalize
                        (ranked chat_world
                           (demo_embed (u "What does it cost?"))
                           (default [] (store stocked_state
                                          !! settings.COLLECTION_NAME)))))],
      None)).
Proof.
  destruct (get_rag_response_stream chat_world (u "What does it cost?")
              stocked_state) as [st' r] eqn:Hrun.
  assert (Hr : r = Ok (Some [Some (u "Plans start "); None;
                             Some (u "at ten.")],
                       sources_text
                         (List.map normalize
                            (ranked chat_world
                               (demo_embed (u "What does it cost?"))
                               (default [] (store stocked_state
                                              !! settings.COLLECTION_NAME)))))).
  { pose proof (f_equal snd Hrun) as Hsnd. simpl in Hsnd. rewrite <- Hsnd.
    vm_compute. reflexivity. }
  subst r.
  destruct (handle_chat_submission_streams chat_world _ _ earlier_turns _ _ _
              Hrun) as [Hyields _].
  rewrite Hyields. reflexivity.
Defined.

(** ** Ingestion only appends *)

Module AppendFacts.

Import settings.

Section WithWorld.

Context {vector stream : Type} (w : world vector stream).

Lemma append_only_refl name (st st' : state vector) :
  store st' = store st -> append_only name st st'.
Proof.
  intros Hs. split.
  - intros other _. rewrite Hs. reflexivity.
  - intros old Hold. exists []. rewrite Hs, app_nil_r. exact Hold.
Qed.

Lemma append_only_trans name (st st1 st2 : state vector) :
  append_only name st st1 -> append_only name st1 st2 ->
  append_only name st st2.
Proof.
  intros [Ho1 Hn1] [Ho2 Hn2]. split.
  - intros other Hne. rewrite Ho2, Ho1 by exact Hne. reflexivity.
  - intros old Hold. destruct (Hn1 old Hold) as [a1 H1].
    destruct (Hn2 _ H1) as [a2 H2]. exists (a1 ++ a2).
    rewrite H2, app_assoc. reflexivity.
Qed.

Lemma foldM_append_only {A B} name (f : B -> A -> M vector B) (l : list A) :
  (forall b x st st' r, f b x st = (st', r) -> append_only name st st') ->
  forall b st st' r, foldM f l b st = (st', r) -> append_only name st st'.
Proof.
  intros Hf. induction l as [|x l IH]; intros b st st' r; simpl.
  - unfold ret. intros H. inversion H. apply append_only_refl. reflexivity.
  - rewrite bind_run. destruct (f b x st) as [st1 [b1|e]] eqn:Hx.
    + intros H. eapply append_only_trans; [eapply Hf, Hx|eapply IH, H].
    + intros H. inversion H; subst. eapply Hf, Hx.
Qed.

Lemma ingest_file_append_only collection root summary file st st' r :
  ingest_file w collection root summary file st = (st', r) ->
  append_only collection st st'.
Proof.
  unfold ingest_file. destruct (is_html_name file); cbn [negb].
  2:{ unfold ret. intros H. inversion H. apply append_only_refl.
      reflexivity. }
  cbv zeta. rewrite bind_run. unfold lift.
  destruct (open_read w (path_join root file)) as [html|e].
  2:{ intros H. inversion H. apply append_only_refl. reflexivity. }
  unfold try_except. rewrite bind_run.
  destruct (process_html w collection file (path_join root file) html st)
    as [st1 r1] eqn:Hproc.
  assert (Hst1 : append_only collection st st1).
  { destruct (process_html_all_or_nothing w _ _ _ _ _ _ _ Hproc)
      as [[Hstore _] | [title [text [old [items [_ [Hold [Hnew _]]]]]]]].
    - apply append_only_refl, Hstore.
    - split.
      + intros other Hne. rewrite Hnew. apply lookup_insert_ne. congruence.
      + intros old' Hold'. rewrite Hold in Hold'. inversion Hold'; subst.
        exists items. rewrite Hnew. apply lookup_insert_eq. }
  destruct r1 as [[line|]|e]; unfold ret; intros H; inversion H; subst;
    exact Hst1.
Qed.

Lemma ingest_directory_append_only folder_path st :
  append_only COLLECTION_NAME st (fst (ingest_directory w folder_path st)).
Proof.
  rewrite ingest_directory_run. cbv zeta.
  destruct (chroma_fault w _); [apply append_only_refl; reflexivity|].
  destruct (chroma_fault w _); [apply append_only_refl; reflexivity|].
  match goal with
  | |- context [foldM ?f ?l ?b ?s] =>
      destruct (foldM f l b s) as [st' r] eqn:Hwalk;
      assert (Hgrow : append_only COLLECTION_NAME s st')
  end.
  { eapply (foldM_append_only COLLECTION_NAME); [|exact Hwalk].
    intros b [root files] s0 s1 r0 Hfiles.
    eapply (foldM_append_only COLLECTION_NAME); [|exact Hfiles].
    intros b0 file s2 s3 r1. apply ingest_file_append_only. }
  assert (Hgoal : append_only COLLECTION_NAME st st').
  { eapply append_only_trans; [|exact Hgrow].
    destruct (store st !! COLLECTION_NAME) eqn:Hitems.
    - apply append_only_refl. reflexivity.
    - split.
      + intros other Hne. cbn [store]. apply lookup_insert_ne. congruence.
      + intros old Hold. congruence. }
  destruct r; exact Hgoal.
Qed.

End WithWorld.

End AppendFacts.
Import AppendFacts.

(** X21.  Ingestion only appends, whatever the services do and however it
    ends: no other collection changes, and the items already in the
    collection are still there, unchanged and in place, before whatever
    was added. *)
Theorem ingest_directory_only_appends {vector stream : Type}
  (w : world vector stream) (folder_path : str) (st : state vector) :
  append_only settings.COLLECTION_NAME st
    (fst (ingest_directory w folder_path st)).
Proof. apply ingest_directory_append_only. Qed.
